(** * status-reporter: artifact validation, termination decision tree and
      job-condition publishing

    A shallow embedding of the Go packages [pkg/result], [pkg/k8s] and
    [pkg/reporter].  Go strings are byte sequences ([list byte]); a Go
    [error] is [option error] with [None] for [nil]; calls on the
    Kubernetes client thread an explicit client state. *)

From Stdlib Require Import Strings.Byte Strings.String Numbers.DecimalString.
From Stdlib Require Import List ZArith NArith Lia Bool Arith.
From Stdlib Require DecimalPos.
Import ListNotations.

Set Implicit Arguments.

(* ================================================================== *)
(** ** Go strings and the parts of the Go library the code calls       *)
(* ================================================================== *)

Module GoString.

(** A Go [string] is an immutable sequence of bytes. *)
Definition gostring := list byte.

(** String literals of the source, written as Rocq strings. *)
Definition lit (s : string) : gostring := list_byte_of_string s.

Fixpoint eqb (a b : gostring) : bool :=
  match a, b with
  | [], [] => true
  | x :: a', y :: b' => Byte.eqb x y && eqb a' b'
  | _, _ => false
  end.

(** [len(s)] *)
Definition len (s : gostring) : Z := Z.of_nat (List.length s).

(** [s[i]], [None] where Go panics with an index out of range. *)
Definition index (s : gostring) (i : nat) : option byte := nth_error s i.

(** [s[:i]] for [i <= len(s)]. *)
Definition slice_to (s : gostring) (i : nat) : gostring := firstn i s.

Definition in_range (lo hi : N) (b : byte) : bool :=
  (lo <=? Byte.to_N b)%N && (Byte.to_N b <=? hi)%N.

Definition byte_is (v : N) (b : byte) : bool := (Byte.to_N b =? v)%N.

(** [utf8.RuneStart]: [b&0xC0 != 0x80]. *)
Definition RuneStart (b : byte) : bool :=
  negb (N.land (Byte.to_N b) 0xC0 =? 0x80)%N.

(** *** Well-formed UTF-8 (the sequences [unicode/utf8] accepts) *)

Definition ascii_byte (b : byte) : bool := (Byte.to_N b <? 0x80)%N.
Definition cont (b : byte) : bool := in_range 0x80 0xBF b.

Definition seq2 (b0 b1 : byte) : bool := in_range 0xC2 0xDF b0 && cont b1.

Definition seq3 (b0 b1 b2 : byte) : bool :=
  (byte_is 0xE0 b0 && in_range 0xA0 0xBF b1
   || in_range 0xE1 0xEC b0 && cont b1
   || byte_is 0xED b0 && in_range 0x80 0x9F b1
   || in_range 0xEE 0xEF b0 && cont b1)
  && cont b2.

Definition seq4 (b0 b1 b2 b3 : byte) : bool :=
  (byte_is 0xF0 b0 && in_range 0x90 0xBF b1
   || in_range 0xF1 0xF3 b0 && cont b1
   || byte_is 0xF4 b0 && in_range 0x80 0x8F b1)
  && cont b2 && cont b3.

(** [utf8.ValidString]. *)
Fixpoint ValidString (s : gostring) : bool :=
  match s with
  | [] => true
  | b0 :: t0 =>
    if ascii_byte b0 then ValidString t0 else
    match t0 with
    | [] => false
    | b1 :: t1 =>
      if seq2 b0 b1 then ValidString t1 else
      match t1 with
      | [] => false
      | b2 :: t2 =>
        if seq3 b0 b1 b2 then ValidString t2 else
        match t2 with
        | [] => false
        | b3 :: t3 => if seq4 b0 b1 b2 b3 then ValidString t3 else false
        end
      end
    end
  end.

(** One encoded code point, and a string cut into encoded code points;
    the relational reading of [ValidString]. *)
Inductive Rune : gostring -> Prop :=
| Rune1 b : ascii_byte b = true -> Rune [b]
| Rune2 b0 b1 : seq2 b0 b1 = true -> Rune [b0; b1]
| Rune3 b0 b1 b2 : seq3 b0 b1 b2 = true -> Rune [b0; b1; b2]
| Rune4 b0 b1 b2 b3 : seq4 b0 b1 b2 b3 = true -> Rune [b0; b1; b2; b3].

Inductive Runes : gostring -> Prop :=
| Runes_nil : Runes []
| Runes_app r s : Rune r -> Runes s -> Runes (r ++ s).

(** A position of [s] is a rune boundary when both sides of the cut are
    well-formed text. *)
Definition boundary (s : gostring) (i : nat) : Prop :=
  i <= List.length s /\ ValidString (firstn i s) = true
  /\ ValidString (skipn i s) = true.

(** [a] is a prefix of [s]. *)
Definition prefix (a s : gostring) : Prop := exists rest, s = a ++ rest.

(** [strings.Contains(s, sub)] as a proposition. *)
Definition contains (s sub : gostring) : Prop :=
  exists pre post, s = pre ++ sub ++ post.

(** *** White space: [unicode.IsSpace] and [strings.TrimSpace] *)

(** [unicode.IsSpace] on a code point: the Latin-1 spaces and the
    code points of Unicode's White_Space property. *)
Definition IsSpace (r : N) : bool :=
  ((0x09 <=? r) && (r <=? 0x0D) || (r =? 0x20) || (r =? 0x85) || (r =? 0xA0)
   || (r =? 0x1680) || (0x2000 <=? r) && (r <=? 0x200A)
   || (r =? 0x2028) || (r =? 0x2029) || (r =? 0x202F) || (r =? 0x205F)
   || (r =? 0x3000))%N.

Definition byte_of (n : N) : byte :=
  match Byte.of_N n with Some b => b | None => x00 end.

(** [utf8.AppendRune] for code points below U+10000 that are not
    surrogates (all the white-space code points are). *)
Definition EncodeRune (r : N) : gostring :=
  if (r <? 0x80)%N then [byte_of r]
  else if (r <? 0x800)%N then
    [byte_of (N.lor 0xC0 (N.shiftr r 6));
     byte_of (N.lor 0x80 (N.land r 0x3F))]
  else
    [byte_of (N.lor 0xE0 (N.shiftr r 12));
     byte_of (N.lor 0x80 (N.land (N.shiftr r 6) 0x3F));
     byte_of (N.lor 0x80 (N.land r 0x3F))].

(** The encodings of the white-space code points, by length. *)
Definition space1 (b : byte) : bool := in_range 0x09 0x0D b || byte_is 0x20 b.

Definition space2 (b0 b1 : byte) : bool :=
  byte_is 0xC2 b0 && (byte_is 0x85 b1 || byte_is 0xA0 b1).

Definition space3 (b0 b1 b2 : byte) : bool :=
  byte_is 0xE1 b0 && byte_is 0x9A b1 && byte_is 0x80 b2
  || byte_is 0xE2 b0 && byte_is 0x80 b1
     && (in_range 0x80 0x8A b2 || byte_is 0xA8 b2 || byte_is 0xA9 b2 || byte_is 0xAF b2)
  || byte_is 0xE2 b0 && byte_is 0x81 b1 && byte_is 0x9F b2
  || byte_is 0xE3 b0 && byte_is 0x80 b1 && byte_is 0x80 b2.

(** The whole string is the encoding of one white-space code point. *)
Definition space_rune (s : gostring) : bool :=
  match s with
  | [b0] => space1 b0
  | [b0; b1] => space2 b0 b1
  | [b0; b1; b2] => space3 b0 b1 b2
  | _ => false
  end.

(** [strings.TrimLeftFunc(s, unicode.IsSpace)]: decode from the front
    and drop code points while they are white space. *)
Fixpoint TrimLeftSpace (s : gostring) : gostring :=
  match s with
  | [] => []
  | b0 :: t0 =>
    if space1 b0 then TrimLeftSpace t0 else
    match t0 with
    | [] => s
    | b1 :: t1 =>
      if space2 b0 b1 then TrimLeftSpace t1 else
      match t1 with
      | [] => s
      | b2 :: t2 => if space3 b0 b1 b2 then TrimLeftSpace t2 else s
      end
    end
  end.

(** [strings.TrimRightFunc(s, unicode.IsSpace)]: drop code points from
    the back while the last one decodes to white space. *)
Fixpoint TrimRightSpace (s : gostring) : gostring :=
  match s with
  | [] => []
  | b :: t =>
    let t' := TrimRightSpace t in
    if space_rune (b :: t') then [] else b :: t'
  end.

(** [strings.TrimSpace]. *)
Definition TrimSpace (s : gostring) : gostring :=
  TrimRightSpace (TrimLeftSpace s).

(** A string made of white space only: the encoding of a sequence of
    white-space code points. *)
Definition whitespace_only (s : gostring) : Prop :=
  exists rs, forallb IsSpace rs = true /\ s = concat (map EncodeRune rs).

(** [fmt.Sprintf("%d", n)] for an integer. *)
Definition itoa (n : Z) : gostring :=
  lit (NilEmpty.string_of_int (Z.to_int n)).

End GoString.

(* ================================================================== *)
(** ** Go error values                                                 *)
(* ================================================================== *)

Module errors.
Import GoString.

(** The error values that flow through the program.  A Go [error]
    variable is an [option error]; [None] is [nil]. *)
Inductive error : Type :=
| New (msg : gostring)                    (* errors.New, fmt.Errorf without %w *)
| ErrNotExist                             (* os.ErrNotExist *)
| ResultError (Field Message : gostring)  (* *result.ResultError *)
| Conflict (msg : gostring)               (* API status error, reason Conflict *)
| NotFound (msg : gostring)               (* API status error, reason NotFound *)
| Wrap (prefix : gostring) (inner : error). (* fmt.Errorf(prefix + "%w", inner) *)

(** [err.Error()] *)
Fixpoint Error (e : error) : gostring :=
  match e with
  | New msg => msg
  | ErrNotExist => lit "file does not exist"
  | ResultError f m => f ++ lit ": " ++ m
  | Conflict msg => msg
  | NotFound msg => msg
  | Wrap p inner => p ++ Error inner
  end.

(** [errors.Is(err, os.ErrNotExist)] *)
Fixpoint IsNotExist (e : error) : bool :=
  match e with
  | ErrNotExist => true
  | Wrap _ inner => IsNotExist inner
  | _ => false
  end.

(** [apierrors.IsConflict(err)] (through wrapping). *)
Fixpoint IsConflict (e : error) : bool :=
  match e with
  | Conflict _ => true
  | Wrap _ inner => IsConflict inner
  | _ => false
  end.

(** [apierrors.IsNotFound(err)] *)
Fixpoint IsNotFound (e : error) : bool :=
  match e with
  | NotFound _ => true
  | Wrap _ inner => IsNotFound inner
  | _ => false
  end.

End errors.

(* ================================================================== *)
(** ** Package [result]: the adapter result contract                   *)
(* ================================================================== *)

Module result.
Import GoString errors.

Definition StatusSuccess : gostring := lit "success".
Definition StatusFailure : gostring := lit "failure".

Definition DefaultReason : gostring := lit "NoReasonProvided".
Definition DefaultMessage : gostring := lit "No message provided".

Definition maxReasonLength : Z := 128.
Definition maxMessageLength : Z := 1024.

Definition maxResultFileSize : Z := 1 * 1024 * 1024.

(** [AdapterResult]; [Details] is the raw JSON of the field. *)
Record AdapterResult : Type := {
  Status : gostring;
  Reason : gostring;
  Message : gostring;
  Details : list byte
}.

(** [IsSuccess] *)
Definition IsSuccess (r : AdapterResult) : bool := eqb (Status r) StatusSuccess.

(** The loop of [truncateUTF8]:
    [for i := maxBytes; i > 0; i-- { if utf8.RuneStart(s[i]) { return s[:i] } }]
    followed by the return of the empty string.  [s[i]] is read only for
    [0 < i <= maxBytes < len(s)], so the out-of-range branch is dead
    (lemma [truncate_loop_in_range]). *)
Fixpoint truncate_loop (s : gostring) (i : nat) : gostring :=
  match i with
  | O => []
  | S i' =>
    match index s i with
    | Some b => if RuneStart b then slice_to s i else truncate_loop s i'
    | None => []
    end
  end.

(** [truncateUTF8] *)
Definition truncateUTF8 (s : gostring) (maxBytes : Z) : gostring :=
  if (len s <=? maxBytes)%Z then s
  else truncate_loop s (Z.to_nat maxBytes).

(** One field of [Validate]: trim, default, truncate. *)
Definition normalize (field dflt : gostring) (maxLen : Z) : gostring :=
  let f := TrimSpace field in
  let f := if eqb f [] then dflt else f in
  if (len f >? maxLen)%Z then truncateUTF8 f maxLen else f.

(** [Validate]: the receiver is updated in place, so the model returns
    the record after the call together with the error. *)
Definition Validate (r : AdapterResult) : AdapterResult * option error :=
  if negb (eqb (Status r) StatusSuccess) && negb (eqb (Status r) StatusFailure)
  then
    (r, Some (ResultError (lit "status")
                (lit "must be either '" ++ StatusSuccess ++ lit "' or '"
                 ++ StatusFailure ++ lit "'")))
  else
    ({| Status := Status r;
        Reason := normalize (Reason r) DefaultReason maxReasonLength;
        Message := normalize (Message r) DefaultMessage maxMessageLength;
        Details := Details r |}, None).

(** What the parser needs from the host: the file system at the time
    of the call and [json.Unmarshal] into an [AdapterResult]. *)
Record FileInfo : Type := { Size : Z }.

Record Host : Type := {
  Abs : gostring -> error + gostring;        (* filepath.Abs(filepath.Clean(p)) *)
  Stat : gostring -> error + FileInfo;       (* os.Stat *)
  ReadFile : gostring -> error + list byte;  (* os.ReadFile *)
  Unmarshal : list byte -> error + AdapterResult (* json.Unmarshal *)
}.

Section Parser.
Variable host : Host.

(** [Parse] *)
Definition Parse (data : list byte) : error + AdapterResult :=
  match Unmarshal host data with
  | inl err => inl (Wrap (lit "failed to parse JSON: ") err)
  | inr decoded =>
    match Validate decoded with
    | (_, Some err) => inl (Wrap (lit "invalid result format: ") err)
    | (validated, None) => inr validated
    end
  end.

(** [ParseFile] *)
Definition ParseFile (path : gostring) : error + AdapterResult :=
  match Abs host path with
  | inl err =>
    inl (Wrap (lit "failed to resolve path=" ++ path ++ lit ": ") err)
  | inr cleanedPath =>
    match Stat host cleanedPath with
    | inl err =>
      inl (Wrap (lit "failed to read result file path=" ++ cleanedPath
                 ++ lit ": ") err)
    | inr fileInfo =>
      if (Size fileInfo =? 0)%Z then
        inl (New (lit "result file is empty: path=" ++ cleanedPath))
      else if (Size fileInfo >? maxResultFileSize)%Z then
        inl (New (lit "result file too large: path=" ++ cleanedPath
                  ++ lit " size=" ++ itoa (Size fileInfo)
                  ++ lit " max=" ++ itoa maxResultFileSize))
      else
        match ReadFile host cleanedPath with
        | inl err =>
          inl (Wrap (lit "failed to read result file path=" ++ cleanedPath
                     ++ lit ": ") err)
        | inr data => Parse data
        end
    end
  end.
End Parser.

End result.

(* ================================================================== *)
(** ** The Kubernetes API types the program touches                    *)
(* ================================================================== *)

(** [time.Time] as an instant; the zero value is [0]. *)
Module time.
Definition Time := Z.
Definition zero : Time := 0%Z.
Definition IsZero (t : Time) : bool := (t =? 0)%Z.
(** [time.Duration], in nanoseconds. *)
Definition Duration := Z.
End time.

Module corev1.
Import GoString.

Definition ConditionTrue : gostring := lit "True".
Definition ConditionFalse : gostring := lit "False".
Definition ConditionUnknown : gostring := lit "Unknown".

Record ContainerStateTerminated : Type := {
  ExitCode : Z;
  Reason : gostring
}.

(** [ContainerState]: at most one of the members is set. *)
Record ContainerState : Type := {
  Running : bool;
  Terminated : option ContainerStateTerminated
}.

Record ContainerStatus : Type := {
  Name : gostring;
  State : ContainerState
}.

Record PodStatus : Type := {
  ContainerStatuses : list ContainerStatus
}.
End corev1.

Module batchv1.
Import GoString.

Record JobCondition : Type := {
  Type_ : gostring;
  Status : gostring;
  LastProbeTime : time.Time;
  LastTransitionTime : time.Time;
  Reason : gostring;
  Message : gostring
}.

(** A Job, as far as its status conditions go. *)
Record Job : Type := {
  ResourceVersion : Z;
  Conditions : list JobCondition
}.
End batchv1.

(* ================================================================== *)
(** ** Package [k8s]: the client that publishes the condition          *)
(* ================================================================== *)

Module k8s.
Import GoString errors.

Definition StatusReporterContainerName : gostring := lit "status-reporter".

(** [k8s.JobCondition] *)
Record JobCondition : Type := {
  Type_ : gostring;
  Status : gostring;
  Reason : gostring;
  Message : gostring;
  LastTransitionTime : time.Time
}.

(** The API server as this client sees it.  [concurrent] lists the
    versions of the Job that other writers store between one of our
    reads and the write that follows it: such a write is refused with
    a conflict.  [writes] counts the status writes the server accepted
    from this client. *)
Record ApiServer : Type := {
  job : option batchv1.Job;
  pods : gostring -> option corev1.PodStatus;
  concurrent : list batchv1.Job;
  writes : nat;
  clock : time.Time
}.

(** [Client] with the server it talks to. *)
Record Client : Type := {
  namespace : gostring;
  jobName : gostring;
  server : ApiServer
}.

Definition with_server (c : Client) (s : ApiServer) : Client :=
  {| namespace := namespace c; jobName := jobName c; server := s |}.

(** [clientset.BatchV1().Jobs(ns).Get] *)
Definition Get (c : Client) : error + batchv1.Job :=
  match job (server c) with
  | Some j => inr j
  | None => inl (NotFound (lit "jobs.batch not found"))
  end.

(** [clientset.BatchV1().Jobs(ns).UpdateStatus] *)
Definition UpdateStatus (c : Client) (j : batchv1.Job) : option error * Client :=
  let s := server c in
  match job s with
  | None => (Some (NotFound (lit "jobs.batch not found")), c)
  | Some stored =>
    match concurrent s with
    | other :: rest =>
      (Some (Conflict (lit "the object has been modified")),
       with_server c {| job := Some other; pods := pods s; concurrent := rest;
                        writes := writes s; clock := clock s |})
    | [] =>
      (None,
       with_server c
         {| job := Some {| batchv1.ResourceVersion :=
                             batchv1.ResourceVersion stored + 1;
                           batchv1.Conditions := batchv1.Conditions j |};
            pods := pods s; concurrent := [];
            writes := S (writes s); clock := clock s |})
    end
  end.

(** The [switch] on [condition.Status]. *)
Definition valid_status (s : gostring) : bool :=
  eqb s corev1.ConditionTrue || eqb s corev1.ConditionFalse
  || eqb s corev1.ConditionUnknown.

(** Semantic identity of two conditions of one type. *)
Definition same_content (a b : batchv1.JobCondition) : bool :=
  eqb (batchv1.Status a) (batchv1.Status b)
  && eqb (batchv1.Reason a) (batchv1.Reason b)
  && eqb (batchv1.Message a) (batchv1.Message b).

(** The [for i, existing := range job.Status.Conditions] loop.
    [None]: the loop returned [nil] from the function (identical
    condition found).  [Some (l, updated)]: the list after the loop and
    the flag [conditionUpdated]. *)
Fixpoint range_conditions (conds : list batchv1.JobCondition)
         (newCondition : batchv1.JobCondition)
  : option (list batchv1.JobCondition * bool) :=
  match conds with
  | [] => Some ([], false)
  | existing :: rest =>
    if negb (eqb (batchv1.Type_ existing) (batchv1.Type_ newCondition)) then
      match range_conditions rest newCondition with
      | None => None
      | Some (rest', updated) => Some (existing :: rest', updated)
      end
    else if same_content existing newCondition then None
    else Some (newCondition :: rest, true)
  end.

(** [strconv.Quote] for a string that needs no escaping. *)
Definition Quote (s : gostring) : gostring := [x22] ++ s ++ [x22].

(** The function literal passed to [retry.RetryOnConflict]. *)
Definition update_attempt (condition : JobCondition) (c : Client)
  : option error * Client :=
  if negb (valid_status (Status condition)) then
    (Some (New (lit "invalid condition status: " ++ Quote (Status condition)
                ++ lit " (expected True/False/Unknown)")), c)
  else
    match Get c with
    | inl err =>
      if IsNotFound err then
        (Some (Wrap (lit "job " ++ namespace c ++ lit "/" ++ jobName c
                     ++ lit " not found: ") err), c)
      else (Some err, c)
    | inr j =>
      let transitionTime :=
        if time.IsZero (LastTransitionTime condition) then clock (server c)
        else LastTransitionTime condition in
      let newCondition :=
        {| batchv1.Type_ := Type_ condition;
           batchv1.Status := Status condition;
           batchv1.LastProbeTime := time.zero;
           batchv1.LastTransitionTime := transitionTime;
           batchv1.Reason := Reason condition;
           batchv1.Message := Message condition |} in
      match range_conditions (batchv1.Conditions j) newCondition with
      | None => (None, c)
      | Some (conds, conditionUpdated) =>
        let conds' :=
          if negb conditionUpdated then conds ++ [newCondition] else conds in
        UpdateStatus c {| batchv1.ResourceVersion := batchv1.ResourceVersion j;
                          batchv1.Conditions := conds' |}
      end
    end.

(** [retry.RetryOnConflict]: run [fn] up to [steps] times, again only
    after a conflict; when the steps run out the last conflict is the
    result. *)
Fixpoint RetryOnConflict (steps : nat) (fn : Client -> option error * Client)
         (lastErr : option error) (c : Client) : option error * Client :=
  match steps with
  | O => (lastErr, c)
  | S n =>
    match fn c with
    | (None, c') => (None, c')
    | (Some err, c') =>
      if IsConflict err then RetryOnConflict n fn (Some err) c'
      else (Some err, c')
    end
  end.

(** [retry.DefaultBackoff.Steps] *)
Definition DefaultBackoffSteps : nat := 4.

(** [UpdateJobStatus] *)
Definition UpdateJobStatus (c : Client) (condition : JobCondition)
  : option error * Client :=
  RetryOnConflict DefaultBackoffSteps (update_attempt condition) None c.

(** [GetPodStatus] *)
Definition GetPodStatus (c : Client) (podName : gostring)
  : error + corev1.PodStatus :=
  match pods (server c) podName with
  | Some p => inr p
  | None =>
    inl (Wrap (lit "failed to get pod: namespace=" ++ namespace c
               ++ lit " pod=" ++ podName ++ lit ": ")
           (NotFound (lit "pods not found")))
  end.

(** [GetAdapterContainerStatus]: the status pointer and the error of
    the Go result pair. *)
Definition GetAdapterContainerStatus (c : Client)
           (podName containerName : gostring)
  : option corev1.ContainerStatus * option error :=
  match GetPodStatus c podName with
  | inl err => (None, Some err)
  | inr podStatus =>
    if negb (eqb containerName []) then
      match find (fun cs => eqb (corev1.Name cs) containerName)
                 (corev1.ContainerStatuses podStatus) with
      | Some cs => (Some cs, None)
      | None =>
        (None, Some (New (lit "container not found: namespace=" ++ namespace c
                          ++ lit " pod=" ++ podName ++ lit " container="
                          ++ containerName)))
      end
    else
      match find (fun cs => negb (eqb (corev1.Name cs)
                                      StatusReporterContainerName))
                 (corev1.ContainerStatuses podStatus) with
      | Some cs => (Some cs, None)
      | None =>
        (None, Some (New (lit "adapter container not found: namespace="
                          ++ namespace c ++ lit " pod=" ++ podName)))
      end
  end.

End k8s.

(* ================================================================== *)
(** ** Package [reporter]: the monitoring engine's resolution logic    *)
(* ================================================================== *)

Module reporter.
Import GoString errors.

Definition ConditionStatusTrue : gostring := lit "True".
Definition ConditionStatusFalse : gostring := lit "False".

Definition ReasonAdapterCrashed : gostring := lit "AdapterCrashed".
Definition ReasonAdapterOOMKilled : gostring := lit "AdapterOOMKilled".
Definition ReasonAdapterExitedWithError : gostring :=
  lit "AdapterExitedWithError".
Definition ReasonAdapterTimeout : gostring := lit "AdapterTimeout".
Definition ReasonInvalidResultFormat : gostring := lit "InvalidResultFormat".
Definition ReasonAdapterMissingResults : gostring :=
  lit "AdapterMissingResults".

Definition ContainerReasonOOMKilled : gostring := lit "OOMKilled".

(** [K8sClientInterface]: an implementation has a state of type [C];
    a call returns its results and the state after it. *)
Class K8sClientInterface (C : Type) : Type := {
  UpdateJobStatus : C -> k8s.JobCondition -> option error * C;
  GetAdapterContainerStatus :
    C -> gostring -> gostring ->
    (option corev1.ContainerStatus * option error) * C
}.

(** The production client. *)
#[export] Instance Client_K8sClientInterface : K8sClientInterface k8s.Client := {
  UpdateJobStatus := k8s.UpdateJobStatus;
  GetAdapterContainerStatus c pod container :=
    (k8s.GetAdapterContainerStatus c pod container, c)
}.

(** [testhelpers.MockK8sClient] *)
Record MockK8sClient : Type := {
  UpdateJobStatusFunc : option (k8s.JobCondition -> option error);
  GetAdapterContainerStatusFunc :
    option (gostring -> gostring ->
            option corev1.ContainerStatus * option error);
  LastUpdatedCondition : k8s.JobCondition
}.

Definition zeroCondition : k8s.JobCondition :=
  {| k8s.Type_ := []; k8s.Status := []; k8s.Reason := []; k8s.Message := [];
     k8s.LastTransitionTime := time.zero |}.

Definition NewMockK8sClient : MockK8sClient :=
  {| UpdateJobStatusFunc := None; GetAdapterContainerStatusFunc := None;
     LastUpdatedCondition := zeroCondition |}.

#[export] Instance Mock_K8sClientInterface : K8sClientInterface MockK8sClient := {
  UpdateJobStatus m condition :=
    let m' := {| UpdateJobStatusFunc := UpdateJobStatusFunc m;
                 GetAdapterContainerStatusFunc :=
                   GetAdapterContainerStatusFunc m;
                 LastUpdatedCondition := condition |} in
    match UpdateJobStatusFunc m with
    | Some f => (f condition, m')
    | None => (None, m')
    end;
  GetAdapterContainerStatus m pod container :=
    match GetAdapterContainerStatusFunc m with
    | Some f => (f pod container, m)
    | None => ((None, None), m)
    end
}.

(** A client together with the record of the calls made on it. *)
Inductive Call : Type :=
| CallUpdateJobStatus (condition : k8s.JobCondition)
| CallGetAdapterContainerStatus (podName containerName : gostring).

Record Recorded (C : Type) : Type := {
  client : C;
  calls : list Call
}.

#[export] Instance Recorded_K8sClientInterface (C : Type)
  `{K8sClientInterface C} : K8sClientInterface (Recorded C) := {
  UpdateJobStatus rc condition :=
    let '(err, c') := UpdateJobStatus (client rc) condition in
    (err, {| client := c';
             calls := calls rc ++ [CallUpdateJobStatus condition] |});
  GetAdapterContainerStatus rc pod container :=
    let '(res, c') := GetAdapterContainerStatus (client rc) pod container in
    (res, {| client := c';
             calls := calls rc
                        ++ [CallGetAdapterContainerStatus pod container] |})
}.

Definition is_update (c : Call) : bool :=
  match c with CallUpdateJobStatus _ => true | _ => false end.

Definition is_query (c : Call) : bool :=
  match c with CallGetAdapterContainerStatus _ _ => true | _ => false end.

(** [StatusReporter], without the client (its state is threaded
    through the methods) and the parser (it has no fields). *)
Record StatusReporter : Type := {
  resultsPath : gostring;
  pollInterval : time.Duration;
  maxWaitTime : time.Duration;
  containerStatusCheckInterval : time.Duration;
  conditionType : gostring;
  podName : gostring;
  adapterContainerName : gostring
}.

(** What [Run] received from its [select]. *)
Inductive Signal : Type :=
| SigResult (adapterResult : result.AdapterResult)
| SigError (err : error)
| SigTerminated (terminated : corev1.ContainerStateTerminated)
| SigDeadline.

Section Reporter.
Variable host : result.Host.
(** [time.Duration.String], used by [%s] on [r.maxWaitTime]. *)
Variable DurationString : time.Duration -> gostring.
Context {C : Type} `{K8sClientInterface C}.
Variable r : StatusReporter.

Definition condition (status reason message : gostring) : k8s.JobCondition :=
  {| k8s.Type_ := conditionType r;
     k8s.Status := status;
     k8s.Reason := reason;
     k8s.Message := message;
     k8s.LastTransitionTime := time.zero |}.

(** [tryParseResultFile] *)
Definition tryParseResultFile : error + result.AdapterResult :=
  match result.Stat host (resultsPath r) with
  | inl err => inl err
  | inr _ =>
    match result.ParseFile host (resultsPath r) with
    | inl err => inl (Wrap (lit "parse failed: ") err)
    | inr adapterResult => inr adapterResult
    end
  end.

(** [UpdateFromResult] *)
Definition UpdateFromResult (adapterResult : result.AdapterResult) (c : C)
  : option error * C :=
  let conditionStatus :=
    if negb (result.IsSuccess adapterResult) then ConditionStatusFalse
    else ConditionStatusTrue in
  match UpdateJobStatus c
          (condition conditionStatus (result.Reason adapterResult)
                     (result.Message adapterResult)) with
  | (Some err, c') =>
    (Some (Wrap (lit "failed to update job status: pod=" ++ podName r
                 ++ lit " condition=" ++ conditionType r ++ lit ": ") err),
     c')
  | (None, c') => (None, c')
  end.

(** [UpdateFromError] *)
Definition UpdateFromError (err : error) (c : C) : option error * C :=
  match UpdateJobStatus c
          (condition ConditionStatusFalse ReasonInvalidResultFormat
             (lit "Failed to parse adapter result: " ++ Error err)) with
  | (Some updateErr, c') =>
    (Some (Wrap (lit "failed to update job status: ") updateErr), c')
  | (None, c') => (Some err, c')
  end.

(** [UpdateFromTerminatedContainer] *)
Definition UpdateFromTerminatedContainer
           (terminated : corev1.ContainerStateTerminated) (c : C)
  : option error * C :=
  let '(reason, message) :=
    if eqb (corev1.Reason terminated) ContainerReasonOOMKilled then
      (ReasonAdapterOOMKilled,
       lit "Adapter container was killed due to out of memory (OOMKilled)")
    else if negb (corev1.ExitCode terminated =? 0)%Z then
      (ReasonAdapterExitedWithError,
       lit "Adapter container exited with code "
       ++ itoa (corev1.ExitCode terminated) ++ lit ": "
       ++ corev1.Reason terminated)
    else
      (ReasonAdapterMissingResults,
       lit "Adapter container exited successfully (code 0) but did not produce a valid result file: "
       ++ corev1.Reason terminated) in
  match UpdateJobStatus c (condition ConditionStatusFalse reason message) with
  | (Some err, c') =>
    (Some (Wrap (lit "failed to update job status: ") err), c')
  | (None, c') =>
    (Some (New (lit "adapter container terminated: " ++ message)), c')
  end.

(** [HandleTermination] *)
Definition HandleTermination (terminated : corev1.ContainerStateTerminated)
           (c : C) : option error * C :=
  match tryParseResultFile with
  | inr adapterResult => UpdateFromResult adapterResult c
  | inl _ => UpdateFromTerminatedContainer terminated c
  end.

(** [UpdateFromTimeout] *)
Definition UpdateFromTimeout (c : C) : option error * C :=
  let '((containerStatus, err), c1) :=
    GetAdapterContainerStatus c (podName r) (adapterContainerName r) in
  let timeout (_ : unit) :=
    match UpdateJobStatus c1
            (condition ConditionStatusFalse ReasonAdapterTimeout
               (lit "Adapter did not produce results within "
                ++ DurationString (maxWaitTime r))) with
    | (Some err', c2) =>
      (Some (Wrap (lit "failed to update job status: ") err'), c2)
    | (None, c2) =>
      (Some (New (lit "timeout waiting for adapter results")), c2)
    end in
  match err with
  | Some _ => timeout tt
  | None =>
    match containerStatus with
    | Some cs =>
      match corev1.Terminated (corev1.State cs) with
      | Some terminated => UpdateFromTerminatedContainer terminated c1
      | None => timeout tt
      end
    | None => timeout tt
    end
  end.

(** The body of [Run] once its [select] has received [sig]: the
    resolution of the run. *)
Definition resolve (sig : Signal) (c : C) : option error * C :=
  match sig with
  | SigResult adapterResult => UpdateFromResult adapterResult c
  | SigError err => UpdateFromError err c
  | SigTerminated terminated => HandleTermination terminated c
  | SigDeadline => UpdateFromTimeout c
  end.

End Reporter.

End reporter.

(* ================================================================== *)
(** ** Package [reporter]: the two watchers                            *)
(* ================================================================== *)

Module watch.
Import GoString errors reporter.

(** What a watcher's [select] receives in one turn of its loop: a tick
    of its ticker, or the stop of the run ([channels.done] closed or the
    context done). *)
Inductive Turn (A : Type) : Type :=
| Tick (now : A)
| Stop.

Arguments Stop {A}.

Section Watchers.
Variable r : StatusReporter.

(** The [ticker.C] case of [pollForResultFile], on the file system as
    it is at that tick: the signal offered to the channels, [None] for
    [continue].  The error of [os.Stat] is tested with [os.IsNotExist],
    which on such an error agrees with [errors.Is(err, os.ErrNotExist)]. *)
Definition poll_tick (host : result.Host) : option Signal :=
  match result.Stat host (resultsPath r) with
  | inl err =>
    if IsNotExist err then None
    else Some (SigError (Wrap (lit "failed to stat result file path="
                               ++ resultsPath r ++ lit ": ") err))
  | inr _ =>
    match result.ParseFile host (resultsPath r) with
    | inl err => Some (SigError err)
    | inr adapterResult => Some (SigResult adapterResult)
    end
  end.


Context {C : Type} `{K8sClientInterface C}.

(** [checkContainerStatus]: the terminated state sent on the channel
    ([Some] where the Go function returns [true]) and the client after
    the query. *)
Definition checkContainerStatus (c : C)
  : option corev1.ContainerStateTerminated * C :=
  let '((containerStatus, err), c1) :=
    GetAdapterContainerStatus c (podName r) (adapterContainerName r) in
  match err with
  | Some _ => (None, c1)
  | None =>
    match containerStatus with
    | Some cs =>
      match corev1.Terminated (corev1.State cs) with
      | Some terminated => (Some terminated, c1)
      | None => (None, c1)
      end
    | None => (None, c1)
    end
  end.

(** The loop of [monitorContainerStatus] after the immediate check. *)
Fixpoint monitor_loop (turns : list (Turn unit)) (c : C)
  : option corev1.ContainerStateTerminated * C :=
  match turns with
  | [] => (None, c)
  | Stop :: _ => (None, c)
  | Tick _ :: rest =>
    match checkContainerStatus c with
    | (Some terminated, c1) => (Some terminated, c1)
    | (None, c1) => monitor_loop rest c1
    end
  end.

(** [monitorContainerStatus] *)
Definition monitorContainerStatus (turns : list (Turn unit)) (c : C)
  : option corev1.ContainerStateTerminated * C :=
  match checkContainerStatus c with
  | (Some terminated, c1) => (Some terminated, c1)
  | (None, c1) => monitor_loop turns c1
  end.

End Watchers.

End watch.

(* ================================================================== *)
(** ** Package [config]: the run configuration                         *)
(* ================================================================== *)

Module config.
Import GoString.

Record Config : Type := {
  JobName : gostring;
  JobNamespace : gostring;
  PodName : gostring;
  ResultsPath : gostring;
  PollIntervalSeconds : Z;
  MaxWaitTimeSeconds : Z;
  ConditionType : gostring;
  LogLevel : gostring;
  AdapterContainerName : gostring
}.

Definition DefaultResultsPath : gostring := lit "/results/adapter-result.json".
Definition DefaultPollIntervalSeconds : Z := 2.
Definition DefaultMaxWaitTimeSeconds : Z := 300.
Definition DefaultConditionType : gostring := lit "Available".
Definition DefaultLogLevel : gostring := lit "info".
Definition DefaultAdapterContainerName : gostring := [].

Definition EnvJobName : gostring := lit "JOB_NAME".
Definition EnvJobNamespace : gostring := lit "JOB_NAMESPACE".
Definition EnvPodName : gostring := lit "POD_NAME".
Definition EnvResultsPath : gostring := lit "RESULTS_PATH".
Definition EnvPollIntervalSeconds : gostring := lit "POLL_INTERVAL_SECONDS".
Definition EnvMaxWaitTimeSeconds : gostring := lit "MAX_WAIT_TIME_SECONDS".
Definition EnvConditionType : gostring := lit "CONDITION_TYPE".
Definition EnvLogLevel : gostring := lit "LOG_LEVEL".
Definition EnvAdapterContainerName : gostring := lit "ADAPTER_CONTAINER_NAME".

(** [ValidationError]; every error of this package is one. *)
Record ValidationError : Type := {
  Field : gostring;
  Message : gostring
}.

(** The [Error] method of [ValidationError]. *)
Definition Error (e : ValidationError) : gostring :=
  Field e ++ lit ": " ++ Message e.

(** The Go [int] of the build target (linux/amd64): 64 bits, two's
    complement. *)
Definition minInt : Z := - 2 ^ 63.
Definition maxInt : Z := 2 ^ 63 - 1.
Definition wrap64 (z : Z) : Z := (z + 2 ^ 63) mod 2 ^ 64 - 2 ^ 63.

(** [time.Second], in nanoseconds. *)
Definition Second : Z := 1000000000.

(** [strings.HasPrefix] and [strings.HasSuffix] *)
Fixpoint HasPrefix (s p : gostring) : bool :=
  match p, s with
  | [], _ => true
  | x :: p', y :: s' => Byte.eqb x y && HasPrefix s' p'
  | _ :: _, [] => false
  end.

Definition HasSuffix (s p : gostring) : bool := HasPrefix (rev s) (rev p).

(** [filepath.IsAbs] on Unix. *)
Definition IsAbs (path : gostring) : bool := HasPrefix path (lit "/").

(** The value of a string of decimal digits read from the left, [None]
    when a byte is not a digit. *)
Fixpoint digits (acc : Z) (s : gostring) : option Z :=
  match s with
  | [] => Some acc
  | b :: t =>
    if in_range 0x30 0x39 b
    then digits (10 * acc + (Z.of_N (Byte.to_N b) - 48)) t
    else None
  end.

(** [strconv.Atoi]: an optional sign and at least one decimal digit,
    with a value that fits an [int]; [None] for its syntax and range
    errors. *)
Definition Atoi (s : gostring) : option Z :=
  let number (sign : Z) (ds : gostring) : option Z :=
    match ds with
    | [] => None
    | _ :: _ =>
      match digits 0 ds with
      | Some n =>
        if (minInt <=? sign * n)%Z && (sign * n <=? maxInt)%Z
        then Some (sign * n)%Z else None
      | None => None
      end
    end in
  match s with
  | x2b :: ds => number 1%Z ds
  | x2d :: ds => number (-1)%Z ds
  | _ => number 1%Z s
  end.

(** What the package reads from its host: the environment
    ([os.Getenv], the empty string for an unset variable) and
    [filepath.Clean]. *)
Record Host : Type := {
  Getenv : gostring -> gostring;
  Clean : gostring -> gostring
}.

Section Config.
Variable host : Host.

(** [getEnvOrDefault] *)
Definition getEnvOrDefault (key defaultValue : gostring) : gostring :=
  let value := TrimSpace (Getenv host key) in
  if eqb value [] then defaultValue else value.

(** [getRequiredEnv] *)
Definition getRequiredEnv (key : gostring) : ValidationError + gostring :=
  let value := TrimSpace (Getenv host key) in
  if eqb value [] then inl {| Field := key; Message := lit "required" |}
  else inr value.

(** [getEnvIntOrDefault] *)
Definition getEnvIntOrDefault (key : gostring) (defaultValue : Z)
  : ValidationError + Z :=
  let value := TrimSpace (Getenv host key) in
  if eqb value [] then inr defaultValue
  else
    match Atoi value with
    | None =>
      inl {| Field := key;
             Message := lit "must be a valid integer, got: " ++ value |}
    | Some intValue => inr intValue
    end.

(** [validateResultsPath] *)
Definition validateResultsPath (c : Config) : option ValidationError :=
  if HasSuffix (ResultsPath c) (lit "/") then
    Some {| Field := lit "ResultsPath";
            Message := lit "path must be a file, not a directory" |}
  else if negb (IsAbs (Clean host (ResultsPath c))) then
    Some {| Field := lit "ResultsPath";
            Message := lit "path must be absolute" |}
  else None.

(** [Validate] *)
Definition Validate (c : Config) : option ValidationError :=
  if (PollIntervalSeconds c <=? 0)%Z then
    Some {| Field := lit "PollIntervalSeconds";
            Message := lit "must be positive" |}
  else if (MaxWaitTimeSeconds c <=? 0)%Z then
    Some {| Field := lit "MaxWaitTimeSeconds";
            Message := lit "must be positive" |}
  else if (PollIntervalSeconds c >=? MaxWaitTimeSeconds c)%Z then
    Some {| Field := lit "PollIntervalSeconds";
            Message := lit "must be less than MaxWaitTimeSeconds" |}
  else validateResultsPath c.

(** [Load] *)
Definition Load : ValidationError + Config :=
  match getRequiredEnv EnvJobName with
  | inl err => inl err
  | inr jobName =>
  match getRequiredEnv EnvJobNamespace with
  | inl err => inl err
  | inr jobNamespace =>
  match getRequiredEnv EnvPodName with
  | inl err => inl err
  | inr podName =>
    let resultsPath := getEnvOrDefault EnvResultsPath DefaultResultsPath in
    let conditionType := getEnvOrDefault EnvConditionType DefaultConditionType in
    let logLevel := getEnvOrDefault EnvLogLevel DefaultLogLevel in
    let adapterContainerName :=
      getEnvOrDefault EnvAdapterContainerName DefaultAdapterContainerName in
    match getEnvIntOrDefault EnvPollIntervalSeconds
                             DefaultPollIntervalSeconds with
    | inl err => inl err
    | inr pollIntervalSeconds =>
    match getEnvIntOrDefault EnvMaxWaitTimeSeconds
                             DefaultMaxWaitTimeSeconds with
    | inl err => inl err
    | inr maxWaitTimeSeconds =>
      let config :=
        {| JobName := jobName;
           JobNamespace := jobNamespace;
           PodName := podName;
           ResultsPath := resultsPath;
           PollIntervalSeconds := pollIntervalSeconds;
           MaxWaitTimeSeconds := maxWaitTimeSeconds;
           ConditionType := conditionType;
           LogLevel := logLevel;
           AdapterContainerName := adapterContainerName |} in
      match Validate config with
      | Some err => inl err
      | None => inr config
      end
    end
    end
  end
  end
  end.

End Config.

(** [GetPollInterval]: [time.Duration(c.PollIntervalSeconds) * time.Second]
    in 64-bit arithmetic. *)
Definition GetPollInterval (c : Config) : time.Duration :=
  wrap64 (PollIntervalSeconds c * Second).

(** [GetMaxWaitTime] *)
Definition GetMaxWaitTime (c : Config) : time.Duration :=
  wrap64 (MaxWaitTimeSeconds c * Second).

End config.

(* ================================================================== *)
(** ** Vocabulary of the statements                                    *)
(* ================================================================== *)

Import GoString errors result reporter.

(** The error [Validate] returns. *)
Definition status_error : error :=
  ResultError (lit "status") (lit "must be either 'success' or 'failure'").

(** The condition [UpdateFromResult] builds from a record. *)
Definition result_condition (r : StatusReporter) (adapterResult : AdapterResult)
  : k8s.JobCondition :=
  condition r
    (if IsSuccess adapterResult then ConditionStatusTrue
     else ConditionStatusFalse)
    (Reason adapterResult) (Message adapterResult).

(** The reason and message [UpdateFromTerminatedContainer] computes. *)
Definition classify (terminated : corev1.ContainerStateTerminated)
  : gostring * gostring :=
  if eqb (corev1.Reason terminated) ContainerReasonOOMKilled then
    (ReasonAdapterOOMKilled,
     lit "Adapter container was killed due to out of memory (OOMKilled)")
  else if negb (corev1.ExitCode terminated =? 0)%Z then
    (ReasonAdapterExitedWithError,
     lit "Adapter container exited with code "
     ++ itoa (corev1.ExitCode terminated) ++ lit ": "
     ++ corev1.Reason terminated)
  else
    (ReasonAdapterMissingResults,
     lit "Adapter container exited successfully (code 0) but did not produce a valid result file: "
     ++ corev1.Reason terminated).

(** The terminated state [UpdateFromTimeout] acts on: the query returned
    no error, a status, and the status has a terminated state. *)
Definition observed_termination
           (reply : option corev1.ContainerStatus * option error)
  : option corev1.ContainerStateTerminated :=
  match snd reply with
  | Some _ => None
  | None =>
    match fst reply with
    | Some cs => corev1.Terminated (corev1.State cs)
    | None => None
    end
  end.

(** The condition of the timeout path. *)
Definition timeout_condition (DurationString : time.Duration -> gostring)
           (r : StatusReporter) : k8s.JobCondition :=
  condition r ConditionStatusFalse ReasonAdapterTimeout
            (lit "Adapter did not produce results within "
             ++ DurationString (maxWaitTime r)).

(** The condition [k8s.UpdateJobStatus] builds from its argument: the
    transition time is the argument's, or the clock's when that is zero. *)
Definition new_condition (c : k8s.Client) (condition : k8s.JobCondition)
  : batchv1.JobCondition :=
  {| batchv1.Type_ := k8s.Type_ condition;
     batchv1.Status := k8s.Status condition;
     batchv1.LastProbeTime := time.zero;
     batchv1.LastTransitionTime :=
       if time.IsZero (k8s.LastTransitionTime condition)
       then k8s.clock (k8s.server c)
       else k8s.LastTransitionTime condition;
     batchv1.Reason := k8s.Reason condition;
     batchv1.Message := k8s.Message condition |}.

(** The client after the server accepted a status write of job [j] with
    these conditions. *)
Definition after_write (c : k8s.Client) (j : batchv1.Job)
           (conds : list batchv1.JobCondition) : k8s.Client :=
  k8s.with_server c
    {| k8s.job := Some {| batchv1.ResourceVersion := batchv1.ResourceVersion j + 1;
                          batchv1.Conditions := conds |};
       k8s.pods := k8s.pods (k8s.server c);
       k8s.concurrent := [];
       k8s.writes := S (k8s.writes (k8s.server c));
       k8s.clock := k8s.clock (k8s.server c) |}.

Definition has_type (t : gostring) (e : batchv1.JobCondition) : bool :=
  eqb (batchv1.Type_ e) t.

(** The Job on the client's server carries the condition: the first
    condition of that type has its status, reason and message. *)
Definition carries (c : k8s.Client) (cond : k8s.JobCondition) : Prop :=
  exists j existing,
    k8s.job (k8s.server c) = Some j
    /\ find (has_type (k8s.Type_ cond)) (batchv1.Conditions j) = Some existing
    /\ batchv1.Status existing = k8s.Status cond
    /\ batchv1.Reason existing = k8s.Reason cond
    /\ batchv1.Message existing = k8s.Message cond.

(** What no call of the client changes: its identity, the pods and the
    clock. *)
Definition same_frame (c c' : k8s.Client) : Prop :=
  k8s.namespace c' = k8s.namespace c
  /\ k8s.jobName c' = k8s.jobName c
  /\ k8s.pods (k8s.server c') = k8s.pods (k8s.server c)
  /\ k8s.clock (k8s.server c') = k8s.clock (k8s.server c).

(** The conditions of the other types, in their order. *)
Definition other_types (t : gostring) (conds : list batchv1.JobCondition)
  : list batchv1.JobCondition :=
  filter (fun e => negb (has_type t e)) conds.



(* ================================================================== *)
(** ** Concrete runs                                                   *)
(* ================================================================== *)

Module scenario.

Definition quoted (s : string) : list byte := [x22] ++ lit s ++ [x22].

(** Scenario A's artifact:
    a JSON object with status success, reason AllChecksPassed and
    message All validations passed. *)
Definition artifact_json : list byte :=
  lit "{" ++ quoted "status" ++ lit ":" ++ quoted "success" ++ lit ","
  ++ quoted "reason" ++ lit ":" ++ quoted "AllChecksPassed" ++ lit ","
  ++ quoted "message" ++ lit ":" ++ quoted "All validations passed" ++ lit "}".

Definition artifact_record : AdapterResult :=
  {| Status := lit "success";
     Reason := lit "AllChecksPassed";
     Message := lit "All validations passed";
     Details := [] |}.

Definition artifact_path : gostring := lit "/results/adapter-result.json".

(** A host whose results path holds Scenario A's artifact; the decoder
    knows that document and rejects every other input. *)
Definition host_with_artifact : Host :=
  {| Abs := fun p => inr p;
     Stat := fun p => if eqb p artifact_path
                      then inr {| Size := len artifact_json |}
                      else inl (Wrap (lit "stat: ") ErrNotExist);
     ReadFile := fun p => if eqb p artifact_path then inr artifact_json
                          else inl (Wrap (lit "open: ") ErrNotExist);
     Unmarshal := fun data => if eqb data artifact_json
                              then inr artifact_record
                              else inl (New (lit "invalid character")) |}.

(** A host with no file at all. *)
Definition host_without_artifact : Host :=
  {| Abs := fun p => inr p;
     Stat := fun _ => inl (Wrap (lit "stat: ") ErrNotExist);
     ReadFile := fun _ => inl (Wrap (lit "open: ") ErrNotExist);
     Unmarshal := fun _ => inl (New (lit "invalid character")) |}.

Definition five_minutes : time.Duration := 300000000000%Z.

(** A stand-in for [time.Duration.String] that prints five minutes as
    Go does and any other duration as its count of nanoseconds. *)
Definition duration_string (d : time.Duration) : gostring :=
  if (d =? five_minutes)%Z then lit "5m0s" else itoa d ++ lit "ns".

Definition the_reporter : StatusReporter :=
  {| resultsPath := artifact_path;
     pollInterval := 2000000000%Z;
     maxWaitTime := five_minutes;
     containerStatusCheckInterval := 10000000000%Z;
     conditionType := lit "Available";
     podName := lit "test-pod";
     adapterContainerName := lit "adapter" |}.

Definition exited (code : Z) (reason : string)
  : corev1.ContainerStateTerminated :=
  {| corev1.ExitCode := code; corev1.Reason := lit reason |}.

(** The mock of the tests, reporting a terminated adapter container. *)
Definition mock_terminated (t : corev1.ContainerStateTerminated)
  : MockK8sClient :=
  {| UpdateJobStatusFunc := None;
     GetAdapterContainerStatusFunc :=
       Some (fun _ _ =>
               (Some {| corev1.Name := lit "adapter";
                        corev1.State := {| corev1.Running := false;
                                           corev1.Terminated := Some t |} |},
                None));
     LastUpdatedCondition := zeroCondition |}.

Definition mock_running : MockK8sClient :=
  {| UpdateJobStatusFunc := None;
     GetAdapterContainerStatusFunc :=
       Some (fun _ _ =>
               (Some {| corev1.Name := lit "adapter";
                        corev1.State := {| corev1.Running := true;
                                           corev1.Terminated := None |} |},
                None));
     LastUpdatedCondition := zeroCondition |}.

(** The mock of the tests with a running container and a failing
    [UpdateJobStatus]. *)
Definition mock_publish_fails : MockK8sClient :=
  {| UpdateJobStatusFunc :=
       Some (fun _ => Some (New (lit "k8s update failed")));
     GetAdapterContainerStatusFunc := GetAdapterContainerStatusFunc mock_running;
     LastUpdatedCondition := zeroCondition |}.

Definition recorded (m : MockK8sClient) : Recorded MockK8sClient :=
  {| client := m; calls := [] |}.

Definition parse_error : error :=
  Wrap (lit "failed to parse JSON: ") (New (lit "invalid character")).

(** A Job that already carries an Available condition set at time 5. *)
Definition available_true : batchv1.JobCondition :=
  {| batchv1.Type_ := lit "Available";
     batchv1.Status := lit "True";
     batchv1.LastProbeTime := time.zero;
     batchv1.LastTransitionTime := 5%Z;
     batchv1.Reason := lit "AllChecksPassed";
     batchv1.Message := lit "All validations passed" |}.

Definition complete_false : batchv1.JobCondition :=
  {| batchv1.Type_ := lit "Complete";
     batchv1.Status := lit "False";
     batchv1.LastProbeTime := time.zero;
     batchv1.LastTransitionTime := 3%Z;
     batchv1.Reason := lit "Running";
     batchv1.Message := lit "still running" |}.

Definition the_job : batchv1.Job :=
  {| batchv1.ResourceVersion := 7%Z;
     batchv1.Conditions := [complete_false; available_true] |}.

Definition the_client : k8s.Client :=
  {| k8s.namespace := lit "ns";
     k8s.jobName := lit "job";
     k8s.server := {| k8s.job := Some the_job;
                      k8s.pods := fun _ => None;
                      k8s.concurrent := [];
                      k8s.writes := 0;
                      k8s.clock := 9%Z |} |}.

(** 127 ASCII bytes, then a two-byte and a three-byte code point:
    byte 128 is the second byte of the first of them. *)
Definition long_text : gostring :=
  repeat "A"%byte 127 ++ [xc3; xa9; xe2; x82; xac].

(** A reason of EM SPACE, space and tab, and an empty message. *)
Definition whitespace_record : AdapterResult :=
  {| Status := StatusFailure;
     Reason := [xe2; x80; x83; x20; x09];
     Message := [];
     Details := [] |}.

Definition untrimmed_invalid_record : AdapterResult :=
  {| Status := lit "invalid";
     Reason := lit "  Test  ";
     Message := repeat "A"%byte 2000;
     Details := [] |}.

(** Fields over the limits: a reason that is not UTF-8 and a long
    message. *)
Definition oversized_record : AdapterResult :=
  {| Status := StatusSuccess;
     Reason := repeat x80 200;
     Message := repeat "A"%byte 2000;
     Details := [] |}.

(** A padded reason and a message of spaces. *)
Definition padded_record : AdapterResult :=
  {| Status := StatusSuccess;
     Reason := lit "  TestReason  ";
     Message := lit "   ";
     Details := [] |}.

(** The condition of the examples, and the client with one
    concurrent writer ahead of it. *)
Definition complete_true : k8s.JobCondition :=
  {| k8s.Type_ := lit "Complete";
     k8s.Status := lit "True";
     k8s.Reason := lit "Done";
     k8s.Message := lit "finished";
     k8s.LastTransitionTime := time.zero |}.

Definition contended_client : k8s.Client :=
  k8s.with_server the_client
    {| k8s.job := Some the_job;
       k8s.pods := fun _ => None;
       k8s.concurrent := [the_job];
       k8s.writes := 0;
       k8s.clock := 9%Z |}.

(** A host whose results path holds text that is not JSON; the decoder
    answers with its diagnostic. *)
Definition garbage : list byte := lit "{not json".

Definition decode_diagnostic : error :=
  New (lit "invalid character 'n' looking for beginning of object key string").

Definition host_with_garbage : Host :=
  {| Abs := fun p => inr p;
     Stat := fun p => if eqb p artifact_path
                      then inr {| Size := len garbage |}
                      else inl (Wrap (lit "stat: ") ErrNotExist);
     ReadFile := fun p => if eqb p artifact_path then inr garbage
                          else inl (Wrap (lit "open: ") ErrNotExist);
     Unmarshal := fun _ => inl decode_diagnostic |}.

(** An environment with the three required variables, padded, and a
    poll interval; [filepath.Clean] is the identity, which it is on the
    paths used here. *)
Definition the_env : config.Host :=
  {| config.Getenv := fun key =>
       if eqb key config.EnvJobName then lit " my-job "
       else if eqb key config.EnvJobNamespace then lit "my-ns"
       else if eqb key config.EnvPodName then lit "my-pod"
       else if eqb key config.EnvPollIntervalSeconds then lit "5"
       else [];
     config.Clean := fun p => p |}.

Definition the_config : config.Config :=
  {| config.JobName := lit "my-job";
     config.JobNamespace := lit "my-ns";
     config.PodName := lit "my-pod";
     config.ResultsPath := config.DefaultResultsPath;
     config.PollIntervalSeconds := 5;
     config.MaxWaitTimeSeconds := 300;
     config.ConditionType := config.DefaultConditionType;
     config.LogLevel := config.DefaultLogLevel;
     config.AdapterContainerName := [] |}.

End scenario.

Import scenario.

Unset Implicit Arguments.

(* ================================================================== *)
(** ** UTF-8 text and [truncateUTF8]                                   *)
(* ================================================================== *)

Ltac bool_to_N :=
  unfold seq2, seq3, seq4, cont, ascii_byte, space1, space2, space3,
    in_range, byte_is in *;
  repeat match goal with
         | H : _ && _ = true |- _ => apply andb_true_iff in H; destruct H
         | H : _ || _ = true |- _ => apply orb_true_iff in H; destruct H
         | H : (_ <=? _)%N = true |- _ => apply N.leb_le in H
         | H : (_ <? _)%N = true |- _ => apply N.ltb_lt in H
         | H : (_ =? _)%N = true |- _ => apply N.eqb_eq in H
         | H : (_ <=? _)%N = false |- _ => apply N.leb_gt in H
         | H : (_ <? _)%N = false |- _ => apply N.ltb_ge in H
         | H : (_ =? _)%N = false |- _ => apply N.eqb_neq in H
         end.

Ltac byte_false :=
  match goal with
  | |- ?b = false => destruct b eqn:?; [exfalso; bool_to_N; lia | reflexivity]
  end.

Lemma RuneStart_cont (b : byte) : RuneStart b = negb (cont b).
Proof. destruct b; reflexivity. Qed.

Lemma ValidString_1 b t :
  ascii_byte b = true -> ValidString (b :: t) = ValidString t.
Proof. intros Hb. simpl. now rewrite Hb. Qed.

Lemma ValidString_2 b0 b1 t :
  seq2 b0 b1 = true -> ValidString (b0 :: b1 :: t) = ValidString t.
Proof.
  intros Hs. simpl. rewrite Hs.
  assert (ascii_byte b0 = false) as -> by byte_false. reflexivity.
Qed.

Lemma ValidString_3 b0 b1 b2 t :
  seq3 b0 b1 b2 = true -> ValidString (b0 :: b1 :: b2 :: t) = ValidString t.
Proof.
  intros Hs. simpl. rewrite Hs.
  assert (ascii_byte b0 = false) as -> by byte_false.
  assert (seq2 b0 b1 = false) as -> by byte_false. reflexivity.
Qed.

Lemma ValidString_4 b0 b1 b2 b3 t :
  seq4 b0 b1 b2 b3 = true ->
  ValidString (b0 :: b1 :: b2 :: b3 :: t) = ValidString t.
Proof.
  intros Hs. simpl. rewrite Hs.
  assert (ascii_byte b0 = false) as -> by byte_false.
  assert (seq2 b0 b1 = false) as -> by byte_false.
  assert (seq3 b0 b1 b2 = false) as -> by byte_false. reflexivity.
Qed.

Lemma Runes_ValidString s : Runes s -> ValidString s = true.
Proof.
  induction 1 as [|r s Hr _ IH]; [reflexivity|].
  destruct Hr; cbn [app].
  - now rewrite ValidString_1.
  - now rewrite ValidString_2.
  - now rewrite ValidString_3.
  - now rewrite ValidString_4.
Qed.

Lemma ValidString_Runes_bounded n :
  forall s, length s <= n -> ValidString s = true -> Runes s.
Proof.
  induction n as [|n IH]; intros s Hlen Hv.
  - destruct s; [constructor | simpl in Hlen; lia].
  - destruct s as [|b0 t0]; [constructor|].
    simpl in Hlen, Hv.
    destruct (ascii_byte b0) eqn:E1.
    { apply (Runes_app (r := [b0])); [now constructor | apply IH; [lia | exact Hv]]. }
    destruct t0 as [|b1 t1]; [discriminate|].
    destruct (seq2 b0 b1) eqn:E2.
    { apply (Runes_app (r := [b0; b1])); [now constructor|].
      apply IH; [simpl in Hlen; lia | exact Hv]. }
    destruct t1 as [|b2 t2]; [discriminate|].
    destruct (seq3 b0 b1 b2) eqn:E3.
    { apply (Runes_app (r := [b0; b1; b2])); [now constructor|].
      apply IH; [simpl in Hlen; lia | exact Hv]. }
    destruct t2 as [|b3 t3]; [discriminate|].
    destruct (seq4 b0 b1 b2 b3) eqn:E4; [|discriminate].
    apply (Runes_app (r := [b0; b1; b2; b3])); [now constructor|].
    apply IH; [simpl in Hlen; lia | exact Hv].
Qed.

Lemma ValidString_iff_Runes s : ValidString s = true <-> Runes s.
Proof.
  split; [apply (ValidString_Runes_bounded (length s)); lia
         | apply Runes_ValidString].
Qed.

(** The first byte of an encoded code point starts a rune, the others
    do not, and there are at most four. *)
Lemma Rune_shape r :
  Rune r ->
  exists b t, r = b :: t /\ RuneStart b = true
              /\ Forall (fun c => RuneStart c = false) t /\ length t <= 3.
Proof.
  intros Hr.
  destruct Hr as [b Hb|b0 b1 Hb|b0 b1 b2 Hb|b0 b1 b2 b3 Hb];
    eexists; eexists; (split; [reflexivity|]);
    rewrite ?Forall_cons_iff, !RuneStart_cont; simpl;
    repeat split; try apply Forall_nil; try lia;
    try (apply negb_true_iff; byte_false);
    try (apply negb_false_iff; bool_to_N;
         unfold cont, in_range; rewrite andb_true_iff, !N.leb_le; lia).
Qed.

Lemma Runes_head b t : Runes (b :: t) -> RuneStart b = true.
Proof.
  intros Hr. inversion Hr as [|r s Hrune _ Heq].
  destruct (Rune_shape _ Hrune) as (b0 & t0 & -> & Hb0 & _).
  simpl in Heq. now injection Heq as -> _.
Qed.

(** Cutting well-formed text in front of a byte that starts a rune
    leaves well-formed text on both sides. *)
Lemma Runes_cut s :
  Runes s ->
  forall i b, nth_error s i = Some b -> RuneStart b = true ->
              Runes (firstn i s) /\ Runes (skipn i s).
Proof.
  induction 1 as [|r s Hr Hs IH]; intros i b Hi Hb.
  - destruct i; discriminate.
  - destruct i as [|j].
    { split; [constructor | now constructor]. }
    destruct (Rune_shape _ Hr) as (b0 & t & -> & _ & Hcont & _).
    cbn [app nth_error firstn skipn] in *.
    destruct (Nat.lt_ge_cases j (length t)) as [Hlt|Hge].
    + rewrite nth_error_app1 in Hi by exact Hlt.
      rewrite Forall_forall in Hcont.
      apply nth_error_In, Hcont in Hi. congruence.
    + rewrite nth_error_app2 in Hi by exact Hge.
      destruct (IH _ _ Hi Hb) as [Hf Hk].
      rewrite firstn_app, skipn_app.
      rewrite (firstn_all2 t) by exact Hge.
      rewrite (skipn_all2 t) by exact Hge.
      split; [| exact Hk].
      change (b0 :: t ++ firstn (j - length t) s)
        with ((b0 :: t) ++ firstn (j - length t) s).
      now constructor.
Qed.

(** Any four consecutive bytes of well-formed text hold a rune start. *)
Lemma Runes_window s :
  Runes s ->
  forall i, i + 3 < length s ->
            exists j b, i <= j <= i + 3 /\ nth_error s j = Some b
                        /\ RuneStart b = true.
Proof.
  induction 1 as [|r s Hr Hs IH]; intros i Hi.
  - simpl in Hi. lia.
  - destruct (Rune_shape _ Hr) as (b0 & t & -> & Hb0 & _ & Hlen).
    cbn [app length] in *. rewrite length_app in Hi.
    destruct i as [|i].
    { exists 0, b0. repeat split; [lia | lia | exact Hb0]. }
    destruct (Nat.le_gt_cases (length t) i) as [Hge|Hlt].
    + destruct (IH (i - length t)) as (j & b & Hj & Hn & Hb); [lia|].
      exists (S (j + length t)), b. repeat split; try lia; [|exact Hb].
      cbn [nth_error]. rewrite nth_error_app2 by lia.
      now replace (j + length t - length t) with j by lia.
    + destruct s as [|b1 s'].
      { simpl in Hi. lia. }
      exists (S (length t)), b1. repeat split; try lia.
      * cbn [nth_error]. rewrite nth_error_app2 by lia.
        now rewrite Nat.sub_diag.
      * exact (Runes_head _ _ Hs).
Qed.

(** Every index the loop of [truncateUTF8] reads is inside the string. *)
Lemma truncate_loop_in_range (s : gostring) (i j : nat) :
  i < length s -> j <= i -> exists b, index s j = Some b.
Proof.
  intros Hi Hj. unfold index.
  destruct (nth_error s j) eqn:E; [eauto|].
  apply nth_error_None in E. lia.
Qed.

(** The loop returns the longest [s[:j]], [0 < j <= i], whose next byte
    starts a rune, and the empty string when there is none. *)
Lemma truncate_loop_spec (s : gostring) (i : nat) :
  i < length s ->
  (exists j b, 0 < j <= i /\ nth_error s j = Some b /\ RuneStart b = true
               /\ truncate_loop s i = firstn j s
               /\ forall k c, j < k <= i -> nth_error s k = Some c ->
                              RuneStart c = false)
  \/ (truncate_loop s i = []
      /\ forall k c, 0 < k <= i -> nth_error s k = Some c ->
                     RuneStart c = false).
Proof.
  induction i as [|i IH]; intros Hi.
  - right. split; [reflexivity | intros; lia].
  - cbn [truncate_loop]. unfold index, slice_to.
    destruct (truncate_loop_in_range s (S i) (S i) Hi (le_n (S i)))
      as [b Hb].
    unfold index in Hb. rewrite Hb.
    destruct (RuneStart b) eqn:Eb.
    + left. exists (S i), b.
      repeat split; try lia; try assumption; intros; lia.
    + destruct IH as [(j & b' & Hj & Hn & Hs & Heq & Hrest)
                     |(Heq & Hrest)]; [lia | |].
      * left. exists j, b'. repeat split; try lia; try assumption.
        intros k c Hk Hc.
        destruct (Nat.eq_dec k (S i)) as [->|Hne]; [congruence|].
        apply (Hrest k c); [lia | exact Hc].
      * right. split; [exact Heq|].
        intros k c Hk Hc.
        destruct (Nat.eq_dec k (S i)) as [->|Hne]; [congruence|].
        apply (Hrest k c); [lia | exact Hc].
Qed.

Lemma len_nat (s : gostring) : len s = Z.of_nat (length s).
Proof. reflexivity. Qed.

Lemma boundary_0 s : ValidString s = true -> boundary s 0.
Proof. intros Hv. repeat split; [lia | exact Hv]. Qed.

(** C7: for every valid UTF-8 string longer than the limit, [truncateUTF8]
    returns a prefix of the input of at most [maxBytes] bytes that ends
    on a rune boundary (both sides of the cut are well-formed) and is
    itself valid UTF-8.  The limits of [Validate], 128 and 1024, are
    instances of [maxBytes]. *)
Theorem truncateUTF8_valid_prefix (s : gostring) (maxBytes : Z) :
  ValidString s = true ->
  (0 <= maxBytes)%Z ->
  (len s > maxBytes)%Z ->
  let t := truncateUTF8 s maxBytes in
  prefix t s /\ (len t <= maxBytes)%Z /\ boundary s (length t)
  /\ ValidString t = true.
Proof.
  intros Hv Hmax Hlen t. subst t. unfold truncateUTF8.
  destruct (len s <=? maxBytes)%Z eqn:E; [apply Z.leb_le in E; lia|].
  rewrite len_nat in Hlen.
  destruct (truncate_loop_spec s (Z.to_nat maxBytes)) as
      [(j & b & Hj & Hn & Hb & -> & _) | (-> & _)]; [lia | |].
  - destruct (Runes_cut s (proj1 (ValidString_iff_Runes s) Hv) _ _ Hn Hb)
      as [Hf Hk].
    assert (Hjl : length (firstn j s) = j)
      by (rewrite length_firstn; lia).
    repeat split.
    + exists (skipn j s). symmetry. apply firstn_skipn.
    + rewrite len_nat, Hjl. lia.
    + rewrite Hjl. lia.
    + rewrite Hjl. now apply ValidString_iff_Runes.
    + rewrite Hjl. now apply ValidString_iff_Runes.
    + now apply ValidString_iff_Runes.
  - split; [exists s; reflexivity|].
    split; [unfold len; simpl; lia|].
    split; [apply boundary_0, Hv | reflexivity].
Qed.

(* ================================================================== *)
(** ** [strings.TrimSpace] and [Validate]                              *)
(* ================================================================== *)

(** *** [eqb] decides equality of Go strings *)

Lemma eqb_refl (a : gostring) : eqb a a = true.
Proof.
  induction a as [|x a IH]; [reflexivity|].
  simpl. rewrite IH, (Byte.byte_dec_lb (eq_refl x)). reflexivity.
Qed.

Lemma eqb_eq (a b : gostring) : eqb a b = true <-> a = b.
Proof.
  split; [|intros ->; apply eqb_refl].
  revert b. induction a as [|x a IH]; intros [|y b] Hab; try discriminate.
  - reflexivity.
  - simpl in Hab. apply andb_true_iff in Hab. destruct Hab as [Hxy Hrest].
    apply Byte.byte_dec_bl in Hxy. apply IH in Hrest. congruence.
Qed.

Lemma eqb_neq (a b : gostring) : eqb a b = false <-> a <> b.
Proof.
  split.
  - intros Hf Heq. apply eqb_eq in Heq. congruence.
  - intros Hne. destruct (eqb a b) eqn:E; [|reflexivity].
    apply eqb_eq in E. contradiction.
Qed.

(** *** White space *)

(** The encoding of a white-space code point is one of the byte
    sequences [TrimSpace] removes. *)
Lemma IsSpace_space_rune (r : N) :
  IsSpace r = true -> space_rune (EncodeRune r) = true.
Proof.
  intros Hr. unfold IsSpace in Hr.
  assert (In r [0x09; 0x0A; 0x0B; 0x0C; 0x0D; 0x20; 0x85; 0xA0; 0x1680;
                0x2000; 0x2001; 0x2002; 0x2003; 0x2004; 0x2005; 0x2006;
                0x2007; 0x2008; 0x2009; 0x200A; 0x2028; 0x2029; 0x202F;
                0x205F; 0x3000]%N) as Hin.
  { repeat match goal with
           | H : _ || _ = true |- _ => apply orb_true_iff in H; destruct H
           | H : _ && _ = true |- _ => apply andb_true_iff in H; destruct H
           | H : (_ <=? _)%N = true |- _ => apply N.leb_le in H
           | H : (_ =? _)%N = true |- _ => apply N.eqb_eq in H
           end; simpl; lia. }
  simpl in Hin.
  repeat (destruct Hin as [<-|Hin]; [reflexivity|]). contradiction.
Qed.

Lemma space_rune_cases (sp : gostring) :
  space_rune sp = true ->
  (exists b0, sp = [b0] /\ space1 b0 = true)
  \/ (exists b0 b1, sp = [b0; b1] /\ space2 b0 b1 = true)
  \/ (exists b0 b1 b2, sp = [b0; b1; b2] /\ space3 b0 b1 b2 = true).
Proof.
  destruct sp as [|b0 [|b1 [|b2 [|b3 t]]]]; simpl; try discriminate; eauto 8.
Qed.

Lemma TrimLeftSpace_app_space (sp s : gostring) :
  space_rune sp = true -> TrimLeftSpace (sp ++ s) = TrimLeftSpace s.
Proof.
  intros Hsp.
  destruct (space_rune_cases sp Hsp)
    as [(b0 & -> & H1) | [(b0 & b1 & -> & H2) | (b0 & b1 & b2 & -> & H3)]];
    cbn [app TrimLeftSpace].
  - now rewrite H1.
  - rewrite H2. assert (space1 b0 = false) as -> by byte_false. reflexivity.
  - rewrite H3. assert (space1 b0 = false) as -> by byte_false.
    assert (space2 b0 b1 = false) as -> by byte_false. reflexivity.
Qed.

Lemma TrimLeftSpace_whitespace (rs : list N) :
  forallb IsSpace rs = true -> TrimLeftSpace (concat (map EncodeRune rs)) = [].
Proof.
  induction rs as [|r rs IH]; intros Hall; [reflexivity|].
  simpl in Hall. apply andb_true_iff in Hall. destruct Hall as [Hr Hrs].
  cbn [map concat].
  rewrite TrimLeftSpace_app_space by (apply IsSpace_space_rune, Hr).
  apply IH, Hrs.
Qed.

(** A string of white space trims to the empty string. *)
Lemma TrimSpace_whitespace (s : gostring) :
  whitespace_only s -> TrimSpace s = [].
Proof.
  intros (rs & Hall & ->). unfold TrimSpace.
  now rewrite TrimLeftSpace_whitespace.
Qed.

Lemma TrimSpace_empty : TrimSpace [] = [].
Proof. reflexivity. Qed.

(** Trimming removes whole code points, so it keeps text well formed. *)
Lemma TrimLeftSpace_valid_bounded (n : nat) :
  forall s, length s <= n -> ValidString s = true ->
            ValidString (TrimLeftSpace s) = true.
Proof.
  induction n as [|n IH]; intros s Hlen Hv.
  - destruct s; [reflexivity | simpl in Hlen; lia].
  - destruct s as [|b0 t0]; [reflexivity|].
    cbn [TrimLeftSpace]. simpl in Hlen.
    destruct (space1 b0) eqn:E1.
    { apply IH; [lia|]. rewrite ValidString_1 in Hv; [exact Hv|].
      bool_to_N; apply N.ltb_lt; lia. }
    destruct t0 as [|b1 t1]; [exact Hv|].
    destruct (space2 b0 b1) eqn:E2.
    { apply IH; [simpl in Hlen; lia|].
      rewrite ValidString_2 in Hv; [exact Hv|].
      bool_to_N; rewrite !andb_true_iff, !N.leb_le; lia. }
    destruct t1 as [|b2 t2]; [exact Hv|].
    destruct (space3 b0 b1 b2) eqn:E3; [|exact Hv].
    apply IH; [simpl in Hlen; lia|].
    rewrite ValidString_3 in Hv; [exact Hv|].
    clear Hv IH E1 E2.
    bool_to_N;
      rewrite andb_true_iff, !orb_true_iff, !andb_true_iff, !N.leb_le, !N.eqb_eq;
      lia.
Qed.

Lemma TrimLeftSpace_valid (s : gostring) :
  ValidString s = true -> ValidString (TrimLeftSpace s) = true.
Proof. apply (TrimLeftSpace_valid_bounded (length s)). lia. Qed.

Lemma space_rune_head (b : byte) (t : gostring) :
  space_rune (b :: t) = true -> RuneStart b = true.
Proof.
  intros Hsp. rewrite RuneStart_cont. apply negb_true_iff.
  destruct (space_rune_cases _ Hsp)
    as [(b0 & Heq & H1) | [(b0 & b1 & Heq & H2) | (b0 & b1 & b2 & Heq & H3)]];
    injection Heq as -> _; byte_false.
Qed.

(** What [TrimRightSpace] cuts off starts with a rune-start byte. *)
Lemma TrimRightSpace_cut (s : gostring) :
  TrimRightSpace s = s
  \/ exists b rest, s = TrimRightSpace s ++ b :: rest /\ RuneStart b = true.
Proof.
  induction s as [|b t IH]; [now left|].
  cbn [TrimRightSpace].
  destruct (space_rune (b :: TrimRightSpace t)) eqn:E.
  - right. exists b, t. split; [reflexivity | exact (space_rune_head _ _ E)].
  - destruct IH as [->|(b' & rest & Heq & Hb')]; [now left|].
    right. exists b', rest. split; [|exact Hb'].
    cbn [app]. now rewrite <- Heq.
Qed.

Lemma TrimRightSpace_valid (s : gostring) :
  ValidString s = true -> ValidString (TrimRightSpace s) = true.
Proof.
  intros Hv.
  destruct (TrimRightSpace_cut s) as [->|(b & rest & Heq & Hb)]; [exact Hv|].
  apply ValidString_iff_Runes in Hv.
  assert (Hn : nth_error s (length (TrimRightSpace s)) = Some b).
  { rewrite Heq at 1. rewrite nth_error_app2 by lia.
    now rewrite Nat.sub_diag. }
  destruct (Runes_cut s Hv _ _ Hn Hb) as [Hf _].
  apply ValidString_iff_Runes.
  rewrite Heq in Hf at 2.
  rewrite firstn_app, Nat.sub_diag, firstn_all in Hf.
  simpl in Hf. now rewrite app_nil_r in Hf.
Qed.

Lemma TrimSpace_valid (s : gostring) :
  ValidString s = true -> ValidString (TrimSpace s) = true.
Proof. intros Hv. apply TrimRightSpace_valid, TrimLeftSpace_valid, Hv. Qed.

(** On well-formed text longer than [maxBytes >= 4] the loop finds a
    boundary among the last four candidates. *)
Lemma truncateUTF8_length (s : gostring) (maxBytes : Z) :
  ValidString s = true -> (4 <= maxBytes)%Z -> (len s > maxBytes)%Z ->
  (maxBytes - 3 <= len (truncateUTF8 s maxBytes))%Z.
Proof.
  intros Hv Hmax Hlen. unfold truncateUTF8.
  destruct (len s <=? maxBytes)%Z eqn:E; [apply Z.leb_le in E; lia|].
  rewrite len_nat in Hlen.
  apply ValidString_iff_Runes in Hv.
  destruct (Runes_window s Hv (Z.to_nat maxBytes - 3))
    as (j & b & Hj & Hn & Hb); [lia|].
  destruct (truncate_loop_spec s (Z.to_nat maxBytes)) as
      [(k & b' & Hk & Hkn & Hkb & -> & Hrest) | (_ & Hnone)]; [lia | |].
  - rewrite len_nat, length_firstn.
    destruct (Nat.lt_ge_cases k j) as [Hlt|Hge].
    + assert (RuneStart b = false) by (apply (Hrest j b); [lia | exact Hn]).
      congruence.
    + lia.
  - assert (RuneStart b = false) by (apply (Hnone j b); [lia | exact Hn]).
    congruence.
Qed.


Lemma Validate_valid_status (r : AdapterResult) :
  Status r = StatusSuccess \/ Status r = StatusFailure ->
  Validate r =
  ({| Status := Status r;
      Reason := normalize (Reason r) DefaultReason maxReasonLength;
      Message := normalize (Message r) DefaultMessage maxMessageLength;
      Details := Details r |}, None).
Proof.
  intros Hs. unfold Validate.
  destruct Hs as [Hs|Hs]; rewrite Hs; reflexivity.
Qed.

Lemma Validate_invalid_status (r : AdapterResult) :
  Status r <> StatusSuccess -> Status r <> StatusFailure ->
  Validate r = (r, Some status_error).
Proof.
  intros H1 H2. unfold Validate.
  apply eqb_neq in H1. apply eqb_neq in H2. rewrite H1, H2. reflexivity.
Qed.

Lemma status_dec (r : AdapterResult) :
  (Status r = StatusSuccess \/ Status r = StatusFailure)
  \/ (Status r <> StatusSuccess /\ Status r <> StatusFailure).
Proof.
  destruct (eqb (Status r) StatusSuccess) eqn:E1;
    [apply eqb_eq in E1; auto|].
  destruct (eqb (Status r) StatusFailure) eqn:E2;
    [apply eqb_eq in E2; auto|].
  apply eqb_neq in E1. apply eqb_neq in E2. auto.
Qed.

(** C8: [Validate] returns an error if and only if the status is
    neither the token success nor the token failure, compared byte for
    byte; the error is the [ResultError] of field status whose message
    says the status must be either 'success' or 'failure'. *)
Theorem Validate_error_iff_status (r : AdapterResult) :
  (snd (Validate r) <> None
   <-> Status r <> StatusSuccess /\ Status r <> StatusFailure)
  /\ (forall e, snd (Validate r) = Some e ->
                e = ResultError (lit "status")
                      (lit "must be either 'success' or 'failure'")
                /\ Error e
                   = lit "status: must be either 'success' or 'failure'").
Proof.
  destruct (status_dec r) as [Hok|[H1 H2]].
  - rewrite (Validate_valid_status r Hok). simpl. split.
    + split; [congruence|]. intros [H1 H2]. destruct Hok; contradiction.
    + discriminate.
  - rewrite (Validate_invalid_status r H1 H2). simpl. split.
    + split; [auto | discriminate].
    + intros e [= <-]. split; reflexivity.
Qed.

(** The status tokens are compared byte for byte. *)
Lemma Validate_status_case_sensitive :
  snd (Validate {| Status := lit "Success"; Reason := lit "r";
                   Message := lit "m"; Details := [] |})
  = Some status_error
  /\ snd (Validate {| Status := []; Reason := lit "r";
                      Message := lit "m"; Details := [] |})
     = Some status_error.
Proof. split; reflexivity. Qed.

Lemma normalize_whitespace (field dflt : gostring) (maxLen : Z) :
  whitespace_only field -> (len dflt <= maxLen)%Z ->
  normalize field dflt maxLen = dflt.
Proof.
  intros Hw Hd. unfold normalize.
  rewrite (TrimSpace_whitespace _ Hw). simpl.
  destruct (len dflt >? maxLen)%Z eqn:E; [|reflexivity].
  apply Z.gtb_lt in E. lia.
Qed.

Lemma normalize_nonempty (field dflt : gostring) (maxLen : Z) :
  ValidString field = true -> ValidString dflt = true -> dflt <> [] ->
  (4 <= maxLen)%Z ->
  normalize field dflt maxLen <> [].
Proof.
  intros Hv Hd Hne Hmax. unfold normalize.
  set (f := if eqb (TrimSpace field) [] then dflt else TrimSpace field).
  assert (Hf : ValidString f = true /\ f <> []).
  { subst f. destruct (eqb (TrimSpace field) []) eqn:E.
    - split; assumption.
    - split; [apply TrimSpace_valid, Hv | now apply eqb_neq]. }
  destruct Hf as [Hfv Hfne].
  destruct (len f >? maxLen)%Z eqn:E; [|exact Hfne].
  apply Z.gtb_lt in E.
  pose proof (truncateUTF8_length f maxLen Hfv Hmax ltac:(lia)) as Hl.
  intros Heq. rewrite Heq in Hl. unfold len in Hl. simpl in Hl. lia.
Qed.

Lemma whitespace_only_nil : whitespace_only [].
Proof. exists []. split; reflexivity. Qed.

(** C9, amended: on a record with a valid status [Validate] succeeds;
    an empty or white-space-only reason (message) becomes the default
    NoReasonProvided (No message provided); the defaults differ and are
    not empty; a reason (message) that was valid UTF-8 is not empty
    afterwards. *)
Theorem Validate_defaults (r : AdapterResult) :
  Status r = StatusSuccess \/ Status r = StatusFailure ->
  snd (Validate r) = None
  /\ (Reason r = [] \/ whitespace_only (Reason r) ->
      Reason (fst (Validate r)) = DefaultReason)
  /\ (Message r = [] \/ whitespace_only (Message r) ->
      Message (fst (Validate r)) = DefaultMessage)
  /\ (ValidString (Reason r) = true -> Reason (fst (Validate r)) <> [])
  /\ (ValidString (Message r) = true -> Message (fst (Validate r)) <> [])
  /\ DefaultReason <> DefaultMessage
  /\ DefaultReason <> [] /\ DefaultMessage <> [].
Proof.
  intros Hs. rewrite (Validate_valid_status r Hs). cbn [fst snd Reason Message].
  split; [reflexivity|].
  split.
  { intros [Hr|Hr]; apply normalize_whitespace;
      try (rewrite Hr; apply whitespace_only_nil); try exact Hr;
      vm_compute; discriminate. }
  split.
  { intros [Hr|Hr]; apply normalize_whitespace;
      try (rewrite Hr; apply whitespace_only_nil); try exact Hr;
      vm_compute; discriminate. }
  split.
  { intros Hv. apply normalize_nonempty;
      [exact Hv | reflexivity | discriminate | vm_compute; discriminate]. }
  split.
  { intros Hv. apply normalize_nonempty;
      [exact Hv | reflexivity | discriminate | vm_compute; discriminate]. }
  repeat split; discriminate.
Qed.


Lemma Validate_defaults_witness :
  Reason (fst (Validate whitespace_record)) = DefaultReason
  /\ Message (fst (Validate whitespace_record)) = DefaultMessage.
Proof.
  destruct (Validate_defaults whitespace_record (or_intror eq_refl))
    as (_ & Hr & Hm & _).
  split.
  - apply Hr. right. exists [0x2003; 0x20; 0x09]%N. split; reflexivity.
  - apply Hm. left. reflexivity.
Defined.

(** C9 as stated fails on a field that is not UTF-8 text: 200 bytes
    [0x80] are not white space, exceed the limit, and hold no rune
    start, so the validated reason is the empty string. *)
Lemma Validate_empty_reason :
  snd (Validate {| Status := StatusSuccess; Reason := repeat x80 200;
                   Message := lit "m"; Details := [] |}) = None
  /\ Reason (fst (Validate {| Status := StatusSuccess;
                             Reason := repeat x80 200;
                             Message := lit "m"; Details := [] |})) = [].
Proof. split; vm_compute; reflexivity. Qed.

(** C10: when [Validate] fails the record is returned as it was, with
    no trimming, defaulting or truncation, and the failure is the
    status check: normalization happens only under a valid status. *)
Theorem Validate_failure_leaves_record (r : AdapterResult) :
  snd (Validate r) <> None ->
  fst (Validate r) = r
  /\ Status r <> StatusSuccess /\ Status r <> StatusFailure.
Proof.
  intros Herr.
  destruct (status_dec r) as [Hok|[H1 H2]].
  - rewrite (Validate_valid_status r Hok) in Herr. simpl in Herr. congruence.
  - rewrite (Validate_invalid_status r H1 H2). simpl. auto.
Qed.


Lemma Validate_failure_leaves_record_witness :
  fst (Validate untrimmed_invalid_record) = untrimmed_invalid_record.
Proof.
  apply (Validate_failure_leaves_record untrimmed_invalid_record).
  vm_compute. discriminate.
Defined.


Lemma truncateUTF8_valid_prefix_witness :
  prefix (truncateUTF8 long_text maxReasonLength) long_text
  /\ (len (truncateUTF8 long_text maxReasonLength) <= maxReasonLength)%Z
  /\ boundary long_text (length (truncateUTF8 long_text maxReasonLength))
  /\ ValidString (truncateUTF8 long_text maxReasonLength) = true.
Proof.
  apply (truncateUTF8_valid_prefix long_text maxReasonLength).
  - vm_compute. reflexivity.
  - vm_compute. discriminate.
  - vm_compute. reflexivity.
Defined.

(* ================================================================== *)
(** ** The reporter: termination decision tree and timeout path        *)
(* ================================================================== *)

Section AnyClient.
Variable host : Host.
Context {C : Type} `{K8sClientInterface C}.
Variable r : StatusReporter.

(** The error of [UpdateFromResult] is nil exactly when the publish is. *)
Lemma UpdateFromResult_error (adapterResult : AdapterResult) (c : C) :
  fst (UpdateFromResult r adapterResult c)
  = match fst (UpdateJobStatus c (result_condition r adapterResult)) with
    | Some err =>
      Some (Wrap (lit "failed to update job status: pod=" ++ podName r
                  ++ lit " condition=" ++ conditionType r ++ lit ": ") err)
    | None => None
    end.
Proof.
  unfold UpdateFromResult, result_condition.
  destruct (IsSuccess adapterResult); cbn [negb];
    match goal with
    | |- context [UpdateJobStatus ?a ?b] =>
      destruct (UpdateJobStatus a b) as [[e|] c']
    end; reflexivity.
Qed.

(** A record that came out of the parser carries one of the two status
    tokens. *)
Lemma Parse_status (data : list byte) (adapterResult : AdapterResult) :
  Parse host data = inr adapterResult ->
  Status adapterResult = StatusSuccess \/ Status adapterResult = StatusFailure.
Proof.
  unfold Parse. destruct (Unmarshal host data) as [e|decoded]; [discriminate|].
  destruct (status_dec decoded) as [Hok|[H1 H2]].
  - rewrite (Validate_valid_status decoded Hok). intros [= <-]. exact Hok.
  - rewrite (Validate_invalid_status decoded H1 H2). discriminate.
Qed.

Lemma ParseFile_status (path : gostring) (adapterResult : AdapterResult) :
  ParseFile host path = inr adapterResult ->
  Status adapterResult = StatusSuccess \/ Status adapterResult = StatusFailure.
Proof.
  unfold ParseFile.
  destruct (Abs host path) as [e|p]; [discriminate|].
  destruct (Stat host p) as [e|fi]; [discriminate|].
  destruct (Size fi =? 0)%Z; [discriminate|].
  destruct (Size fi >? maxResultFileSize)%Z; [discriminate|].
  destruct (ReadFile host p) as [e|data]; [discriminate|].
  apply Parse_status.
Qed.

Lemma tryParseResultFile_status (adapterResult : AdapterResult) :
  tryParseResultFile host r = inr adapterResult ->
  Status adapterResult = StatusSuccess \/ Status adapterResult = StatusFailure.
Proof.
  unfold tryParseResultFile.
  destruct (Stat host (resultsPath r)) as [e|fi]; [discriminate|].
  destruct (ParseFile host (resultsPath r)) as [e|res] eqn:E; [discriminate|].
  intros [= <-]. exact (ParseFile_status _ _ E).
Qed.

(** When the file is there, of a size within the cap, readable, and
    decodes to a record with one of the two status tokens, the artifact
    is the validated record. *)
Lemma tryParseResultFile_present (fi0 fi : FileInfo) (path : gostring)
      (data : list byte) (decoded : AdapterResult) :
  Stat host (resultsPath r) = inr fi0 ->
  Abs host (resultsPath r) = inr path ->
  Stat host path = inr fi ->
  (0 < Size fi <= maxResultFileSize)%Z ->
  ReadFile host path = inr data ->
  Unmarshal host data = inr decoded ->
  Status decoded = StatusSuccess \/ Status decoded = StatusFailure ->
  tryParseResultFile host r = inr (fst (Validate decoded)).
Proof.
  intros Hs0 Ha Hs Hsize Hr Hu Hok.
  unfold tryParseResultFile, ParseFile, Parse.
  rewrite Hs0, Ha, Hs.
  destruct (Size fi =? 0)%Z eqn:E0; [apply Z.eqb_eq in E0; lia|].
  destruct (Size fi >? maxResultFileSize)%Z eqn:E1;
    [apply Z.gtb_lt in E1; lia|].
  rewrite Hr, Hu, (Validate_valid_status decoded Hok). reflexivity.
Qed.

Lemma UpdateFromTerminatedContainer_unfold
      (terminated : corev1.ContainerStateTerminated) (c : C) :
  UpdateFromTerminatedContainer r terminated c
  = let cond := condition r ConditionStatusFalse (fst (classify terminated))
                          (snd (classify terminated)) in
    (Some (match fst (UpdateJobStatus c cond) with
           | Some err => Wrap (lit "failed to update job status: ") err
           | None => New (lit "adapter container terminated: "
                          ++ snd (classify terminated))
           end),
     snd (UpdateJobStatus c cond)).
Proof.
  unfold UpdateFromTerminatedContainer, classify.
  destruct (eqb (corev1.Reason terminated) ContainerReasonOOMKilled);
    [|destruct (negb (corev1.ExitCode terminated =? 0)%Z)];
    cbn [fst snd];
    match goal with
    | |- context [UpdateJobStatus ?a ?b] =>
      destruct (UpdateJobStatus a b) as [[e|] c']
    end; reflexivity.
Qed.

End AnyClient.


Section RecordedClient.
Variable host : Host.
Variable DurationString : time.Duration -> gostring.
Context {C : Type} `{K8sClientInterface C}.
Variable r : StatusReporter.

(** A call of [UpdateJobStatus] on a recorded client appends exactly
    that call to the record. *)
Lemma Recorded_UpdateJobStatus (rc : Recorded C) (cond : k8s.JobCondition) :
  UpdateJobStatus rc cond
  = (fst (UpdateJobStatus (client rc) cond),
     {| client := snd (UpdateJobStatus (client rc) cond);
        calls := calls rc ++ [CallUpdateJobStatus cond] |}).
Proof.
  cbn [UpdateJobStatus Recorded_K8sClientInterface].
  destruct (UpdateJobStatus (client rc) cond). reflexivity.
Qed.

Lemma Recorded_GetAdapterContainerStatus (rc : Recorded C)
      (pod container : gostring) :
  GetAdapterContainerStatus rc pod container
  = (fst (GetAdapterContainerStatus (client rc) pod container),
     {| client := snd (GetAdapterContainerStatus (client rc) pod container);
        calls := calls rc ++ [CallGetAdapterContainerStatus pod container] |}).
Proof.
  cbn [GetAdapterContainerStatus Recorded_K8sClientInterface].
  destruct (GetAdapterContainerStatus (client rc) pod container). reflexivity.
Qed.



Lemma UpdateFromResult_calls (adapterResult : AdapterResult) (c : Recorded C) :
  calls (snd (UpdateFromResult r adapterResult c))
  = calls c ++ [CallUpdateJobStatus (result_condition r adapterResult)].
Proof.
  unfold UpdateFromResult, result_condition.
  destruct (IsSuccess adapterResult); cbn [negb];
    rewrite Recorded_UpdateJobStatus;
    match goal with
    | |- context [fst ?u] => destruct (fst u)
    end; reflexivity.
Qed.









(** C1: when the artifact at the configured path parses into a valid
    record, [HandleTermination] is [UpdateFromResult] on that record
    whatever the exit code and termination reason: the one condition
    it publishes has the record's reason and message, and status True
    for a success record, False for a failure record. *)
Theorem HandleTermination_artifact_wins
        (terminated : corev1.ContainerStateTerminated) (c : Recorded C)
        (adapterResult : AdapterResult) :
  tryParseResultFile host r = inr adapterResult ->
  HandleTermination host r terminated c = UpdateFromResult r adapterResult c
  /\ calls (snd (HandleTermination host r terminated c))
     = calls c
       ++ [CallUpdateJobStatus
             {| k8s.Type_ := conditionType r;
                k8s.Status := if IsSuccess adapterResult
                              then ConditionStatusTrue else ConditionStatusFalse;
                k8s.Reason := Reason adapterResult;
                k8s.Message := Message adapterResult;
                k8s.LastTransitionTime := time.zero |}]
  /\ (Status adapterResult = StatusSuccess
      /\ k8s.Status (result_condition r adapterResult) = lit "True"
      \/ Status adapterResult = StatusFailure
         /\ k8s.Status (result_condition r adapterResult) = lit "False").
Proof.
  intros Hparse.
  assert (Heq : HandleTermination host r terminated c
                = UpdateFromResult r adapterResult c)
    by (unfold HandleTermination; now rewrite Hparse).
  split; [exact Heq|]. split.
  - rewrite Heq. apply UpdateFromResult_calls.
  - unfold result_condition, IsSuccess.
    destruct (tryParseResultFile_status host r _ Hparse) as [Hs|Hs]; rewrite Hs;
      [left | right]; split; reflexivity.
Qed.





Lemma UpdateFromTerminatedContainer_calls
      (terminated : corev1.ContainerStateTerminated) (c : Recorded C) :
  calls (snd (UpdateFromTerminatedContainer r terminated c))
  = calls c
    ++ [CallUpdateJobStatus
          (condition r ConditionStatusFalse (fst (classify terminated))
                     (snd (classify terminated)))].
Proof.
  rewrite UpdateFromTerminatedContainer_unfold. cbn [snd].
  rewrite Recorded_UpdateJobStatus. reflexivity.
Qed.

(** C2: [UpdateFromTerminatedContainer] publishes one condition of
    status False; its reason is AdapterOOMKilled with the fixed message
    when the termination reason is OOMKilled, otherwise
    AdapterExitedWithError with a message containing the exit code and
    the termination reason when the exit code is not zero, otherwise
    AdapterMissingResults. *)
Theorem UpdateFromTerminatedContainer_classification
        (terminated : corev1.ContainerStateTerminated) (c : Recorded C) :
  exists reason message,
    calls (snd (UpdateFromTerminatedContainer r terminated c))
    = calls c
      ++ [CallUpdateJobStatus
            {| k8s.Type_ := conditionType r;
               k8s.Status := lit "False";
               k8s.Reason := reason;
               k8s.Message := message;
               k8s.LastTransitionTime := time.zero |}]
    /\ (corev1.Reason terminated = lit "OOMKilled" ->
        reason = lit "AdapterOOMKilled"
        /\ message
           = lit "Adapter container was killed due to out of memory (OOMKilled)")
    /\ (corev1.Reason terminated <> lit "OOMKilled" ->
        corev1.ExitCode terminated <> 0%Z ->
        reason = lit "AdapterExitedWithError"
        /\ contains message (itoa (corev1.ExitCode terminated))
        /\ contains message (corev1.Reason terminated))
    /\ (corev1.Reason terminated <> lit "OOMKilled" ->
        corev1.ExitCode terminated = 0%Z ->
        reason = lit "AdapterMissingResults").
Proof.
  exists (fst (classify terminated)), (snd (classify terminated)).
  split; [apply UpdateFromTerminatedContainer_calls|].
  unfold classify, ContainerReasonOOMKilled.
  destruct (eqb (corev1.Reason terminated) (lit "OOMKilled")) eqn:E.
  - apply eqb_eq in E. repeat split; try reflexivity; intros; contradiction.
  - apply eqb_neq in E.
    destruct (corev1.ExitCode terminated =? 0)%Z eqn:Ez; cbn [negb fst snd].
    + apply Z.eqb_eq in Ez.
      repeat split; try reflexivity; intros; contradiction.
    + apply Z.eqb_neq in Ez.
      split; [intros; contradiction|].
      split; [|intros; contradiction].
      intros _ _. split; [reflexivity|]. split.
      * exists (lit "Adapter container exited with code "),
          (lit ": " ++ corev1.Reason terminated). reflexivity.
      * exists (lit "Adapter container exited with code "
                ++ itoa (corev1.ExitCode terminated) ++ lit ": "), [].
        rewrite app_nil_r, <- !app_assoc. reflexivity.
Qed.

(** C5: when the artifact does not parse, [HandleTermination] returns
    a non-nil error whatever the publish returned, after publishing one
    of the three exit-code classifications; it returns nil only on the
    artifact path, and then the publish returned nil. *)
Theorem HandleTermination_error
        (terminated : corev1.ContainerStateTerminated) (c : Recorded C) :
  (forall e, tryParseResultFile host r = inl e ->
     fst (HandleTermination host r terminated c) <> None
     /\ exists reason message,
         calls (snd (HandleTermination host r terminated c))
         = calls c ++ [CallUpdateJobStatus
                         (condition r (lit "False") reason message)]
         /\ In reason [ReasonAdapterOOMKilled; ReasonAdapterExitedWithError;
                       ReasonAdapterMissingResults])
  /\ (fst (HandleTermination host r terminated c) = None ->
      exists adapterResult,
        tryParseResultFile host r = inr adapterResult
        /\ fst (UpdateJobStatus (client c) (result_condition r adapterResult))
           = None).
Proof.
  unfold HandleTermination.
  destruct (tryParseResultFile host r) as [e|adapterResult].
  - split.
    + intros _ _. split.
      * rewrite UpdateFromTerminatedContainer_unfold. discriminate.
      * exists (fst (classify terminated)), (snd (classify terminated)).
        split; [apply UpdateFromTerminatedContainer_calls|].
        unfold classify.
        destruct (eqb _ _); [|destruct (negb _)]; simpl; auto.
    + rewrite UpdateFromTerminatedContainer_unfold. discriminate.
  - split; [discriminate|].
    intros Hnil. exists adapterResult. split; [reflexivity|].
    rewrite UpdateFromResult_error, Recorded_UpdateJobStatus in Hnil.
    cbn [fst] in Hnil.
    destruct (fst (UpdateJobStatus (client c) (result_condition r adapterResult)));
      [discriminate | reflexivity].
Qed.

End RecordedClient.

Section Timeout.
Variable host : Host.
Variable DurationString : time.Duration -> gostring.
Context {C : Type} `{K8sClientInterface C}.
Variable r : StatusReporter.

Lemma UpdateFromTimeout_unfold (c : C) :
  UpdateFromTimeout DurationString r c
  = let q := GetAdapterContainerStatus c (podName r) (adapterContainerName r) in
    match observed_termination (fst q) with
    | Some terminated => UpdateFromTerminatedContainer r terminated (snd q)
    | None =>
      (Some (match fst (UpdateJobStatus (snd q)
                          (timeout_condition DurationString r)) with
             | Some err => Wrap (lit "failed to update job status: ") err
             | None => New (lit "timeout waiting for adapter results")
             end),
       snd (UpdateJobStatus (snd q) (timeout_condition DurationString r)))
    end.
Proof.
  unfold UpdateFromTimeout, observed_termination, timeout_condition.
  destruct (GetAdapterContainerStatus c (podName r) (adapterContainerName r))
    as [[cs err] c1].
  cbn [fst snd].
  destruct err as [e|];
    [|destruct cs as [cs|];
      [destruct (corev1.Terminated (corev1.State cs)) as [t|]|]];
    try reflexivity;
    match goal with
    | |- context [UpdateJobStatus ?a ?b] =>
      destruct (UpdateJobStatus a b) as [[e'|] c2]
    end; reflexivity.
Qed.

(** C4, amended: a run resolved by a parsed artifact, as a result
    signal or found by [HandleTermination], returns nil exactly when
    the publish does and the wrapped publish error otherwise, whatever
    the record's status; a run resolved by an error signal, by the
    exit-code classification or by the AdapterTimeout condition
    returns a non-nil error whether or not the publish succeeded. *)
Theorem resolve_error_reflects_path (c : C) :
  (forall adapterResult,
      fst (resolve host DurationString r (SigResult adapterResult) c)
      = match fst (UpdateJobStatus c (result_condition r adapterResult)) with
        | Some err =>
          Some (Wrap (lit "failed to update job status: pod=" ++ podName r
                      ++ lit " condition=" ++ conditionType r ++ lit ": ") err)
        | None => None
        end)
  /\ (forall terminated adapterResult,
         tryParseResultFile host r = inr adapterResult ->
         fst (resolve host DurationString r (SigTerminated terminated) c)
         = fst (resolve host DurationString r (SigResult adapterResult) c))
  /\ (forall err,
         fst (resolve host DurationString r (SigError err) c) <> None)
  /\ (forall terminated, fst (UpdateFromTerminatedContainer r terminated c)
                         <> None)
  /\ (forall terminated e,
         tryParseResultFile host r = inl e ->
         fst (resolve host DurationString r (SigTerminated terminated) c)
         <> None)
  /\ (observed_termination
        (fst (GetAdapterContainerStatus c (podName r) (adapterContainerName r)))
      = None ->
      fst (resolve host DurationString r SigDeadline c) <> None).
Proof.
  cbn [resolve]. repeat split.
  - intros adapterResult. apply UpdateFromResult_error.
  - intros terminated adapterResult Hp. unfold HandleTermination.
    now rewrite Hp.
  - intros err. unfold UpdateFromError.
    destruct (UpdateJobStatus c _) as [[e|] c']; discriminate.
  - intros terminated.
    rewrite UpdateFromTerminatedContainer_unfold. discriminate.
  - intros terminated e Hp. unfold HandleTermination. rewrite Hp.
    rewrite UpdateFromTerminatedContainer_unfold. discriminate.
  - intros Hobs. rewrite UpdateFromTimeout_unfold. cbv zeta.
    rewrite Hobs. discriminate.
Qed.

End Timeout.

Section TimeoutRecorded.
Variable host : Host.
Variable DurationString : time.Duration -> gostring.
Context {C : Type} `{K8sClientInterface C}.
Variable r : StatusReporter.

(** C3, amended: [UpdateFromTimeout] queries the container state once,
    first, and then publishes once.  When the query reports a
    terminated container and the artifact does not parse, it is the
    termination decision tree, [HandleTermination], after the query.
    When the query reports no terminated container (running, query
    error, nil status) the condition has status False, reason
    AdapterTimeout and a message naming [maxWaitTime], and the error is
    not nil: the timeout error when the publish returned nil, the
    wrapped publish error otherwise. *)
Theorem UpdateFromTimeout_behaviour (c : Recorded C) :
  let reply :=
    fst (GetAdapterContainerStatus (client c) (podName r)
           (adapterContainerName r)) in
  let queried : Recorded C :=
    {| client := snd (GetAdapterContainerStatus (client c) (podName r)
                        (adapterContainerName r));
       calls := calls c
                ++ [CallGetAdapterContainerStatus (podName r)
                      (adapterContainerName r)] |} in
  (exists cond,
      calls (snd (UpdateFromTimeout DurationString r c))
      = calls c
        ++ [CallGetAdapterContainerStatus (podName r) (adapterContainerName r);
            CallUpdateJobStatus cond])
  /\ (forall terminated e,
         observed_termination reply = Some terminated ->
         tryParseResultFile host r = inl e ->
         UpdateFromTimeout DurationString r c
         = HandleTermination host r terminated queried)
  /\ (observed_termination reply = None ->
      calls (snd (UpdateFromTimeout DurationString r c))
      = calls queried
        ++ [CallUpdateJobStatus
              {| k8s.Type_ := conditionType r;
                 k8s.Status := lit "False";
                 k8s.Reason := lit "AdapterTimeout";
                 k8s.Message := lit "Adapter did not produce results within "
                                ++ DurationString (maxWaitTime r);
                 k8s.LastTransitionTime := time.zero |}]
      /\ fst (UpdateFromTimeout DurationString r c)
         = Some (match fst (UpdateJobStatus (client queried)
                              (timeout_condition DurationString r)) with
                 | Some err => Wrap (lit "failed to update job status: ") err
                 | None => New (lit "timeout waiting for adapter results")
                 end)).
Proof.
  intros reply queried.
  rewrite UpdateFromTimeout_unfold. cbv zeta.
  rewrite Recorded_GetAdapterContainerStatus. cbn [fst snd].
  fold reply. fold queried.
  destruct (observed_termination reply) as [t|] eqn:E.
  - split; [|split; [|discriminate]].
    + rewrite UpdateFromTerminatedContainer_unfold. cbv zeta. cbn [fst snd].
      rewrite Recorded_UpdateJobStatus. cbn [fst snd calls].
      eexists. unfold queried; cbn [calls]. rewrite <- app_assoc. reflexivity.
    + intros t' e [= <-] Hp. unfold HandleTermination. now rewrite Hp.
  - rewrite Recorded_UpdateJobStatus. cbn [fst snd calls].
    split; [|split; [discriminate|]].
    + eexists. unfold queried; cbn [calls]. rewrite <- app_assoc. reflexivity.
    + intros _. split; reflexivity.
Qed.

End TimeoutRecorded.

(* ================================================================== *)
(** ** The client: publishing a condition                              *)
(* ================================================================== *)

Lemma range_conditions_absent (conds : list batchv1.JobCondition)
      (new : batchv1.JobCondition) :
  find (has_type (batchv1.Type_ new)) conds = None ->
  k8s.range_conditions conds new = Some (conds, false).
Proof.
  induction conds as [|e rest IH]; intros Hf; [reflexivity|].
  cbn [find] in Hf. unfold has_type in Hf at 1.
  cbn [k8s.range_conditions].
  destruct (eqb (batchv1.Type_ e) (batchv1.Type_ new)); [discriminate|].
  cbn [negb]. now rewrite (IH Hf).
Qed.

Lemma range_conditions_present (conds : list batchv1.JobCondition)
      (new existing : batchv1.JobCondition) :
  find (has_type (batchv1.Type_ new)) conds = Some existing ->
  exists pre post,
    conds = pre ++ existing :: post
    /\ find (has_type (batchv1.Type_ new)) pre = None
    /\ k8s.range_conditions conds new
       = if k8s.same_content existing new then None
         else Some (pre ++ new :: post, true).
Proof.
  induction conds as [|e rest IH]; intros Hf; [discriminate|].
  cbn [find] in Hf. unfold has_type in Hf at 1.
  cbn [k8s.range_conditions].
  destruct (eqb (batchv1.Type_ e) (batchv1.Type_ new)) eqn:E; cbn [negb].
  - injection Hf as <-. exists [], rest.
    split; [reflexivity|]. split; reflexivity.
  - destruct (IH Hf) as (pre & post & -> & Hpre & Hr).
    exists (e :: pre), post. split; [reflexivity|]. split.
    + cbn [find]. unfold has_type at 1. now rewrite E.
    + rewrite Hr. destruct (k8s.same_content existing new); reflexivity.
Qed.

Lemma update_attempt_unfold (c : k8s.Client) (condition : k8s.JobCondition)
      (j : batchv1.Job) :
  k8s.valid_status (k8s.Status condition) = true ->
  k8s.job (k8s.server c) = Some j ->
  k8s.update_attempt condition c
  = match k8s.range_conditions (batchv1.Conditions j)
            (new_condition c condition) with
    | None => (None, c)
    | Some (conds, conditionUpdated) =>
      k8s.UpdateStatus c
        {| batchv1.ResourceVersion := batchv1.ResourceVersion j;
           batchv1.Conditions :=
             if negb conditionUpdated
             then conds ++ [new_condition c condition] else conds |}
    end.
Proof.
  intros Hv Hj. unfold k8s.update_attempt, k8s.Get.
  rewrite Hv, Hj. reflexivity.
Qed.

Lemma UpdateStatus_accepted (c : k8s.Client) (j stored : batchv1.Job) :
  k8s.job (k8s.server c) = Some stored ->
  k8s.concurrent (k8s.server c) = [] ->
  k8s.UpdateStatus c j = (None, after_write c stored (batchv1.Conditions j)).
Proof.
  intros Hs Hc. unfold k8s.UpdateStatus, after_write. now rewrite Hs, Hc.
Qed.


(* ================================================================== *)
(** ** The statements on the concrete runs                             *)
(* ================================================================== *)

Lemma HandleTermination_artifact_wins_witness :
  HandleTermination host_with_artifact the_reporter (exited 137 "OOMKilled")
                    (recorded NewMockK8sClient)
  = UpdateFromResult the_reporter artifact_record (recorded NewMockK8sClient)
  /\ calls (snd (HandleTermination host_with_artifact the_reporter
                   (exited 137 "OOMKilled") (recorded NewMockK8sClient)))
     = [CallUpdateJobStatus
          {| k8s.Type_ := lit "Available";
             k8s.Status := lit "True";
             k8s.Reason := lit "AllChecksPassed";
             k8s.Message := lit "All validations passed";
             k8s.LastTransitionTime := time.zero |}].
Proof.
  destruct (HandleTermination_artifact_wins host_with_artifact the_reporter
              (exited 137 "OOMKilled") (recorded NewMockK8sClient)
              artifact_record) as (H1 & H2 & _).
  - vm_compute. reflexivity.
  - split; [exact H1 | exact H2].
Defined.

(** Scenarios B, C and D of the specification. *)
Lemma scenarios_B_C_D :
  LastUpdatedCondition
    (snd (HandleTermination host_without_artifact the_reporter
            (exited 137 "OOMKilled") NewMockK8sClient))
  = condition the_reporter (lit "False") (lit "AdapterOOMKilled")
      (lit "Adapter container was killed due to out of memory (OOMKilled)")
  /\ LastUpdatedCondition
       (snd (HandleTermination host_without_artifact the_reporter
               (exited 1 "Error") NewMockK8sClient))
     = condition the_reporter (lit "False") (lit "AdapterExitedWithError")
         (lit "Adapter container exited with code 1: Error")
  /\ k8s.Reason
       (LastUpdatedCondition
          (snd (HandleTermination host_without_artifact the_reporter
                  (exited 0 "Completed") NewMockK8sClient)))
     = lit "AdapterMissingResults".
Proof. repeat split; vm_compute; reflexivity. Qed.

(** Scenario E: the container still runs at the deadline. *)
Lemma scenario_E :
  UpdateFromTimeout duration_string the_reporter mock_running
  = (Some (New (lit "timeout waiting for adapter results")),
     {| UpdateJobStatusFunc := UpdateJobStatusFunc mock_running;
        GetAdapterContainerStatusFunc :=
          GetAdapterContainerStatusFunc mock_running;
        LastUpdatedCondition :=
          condition the_reporter (lit "False") (lit "AdapterTimeout")
            (lit "Adapter did not produce results within 5m0s") |}).
Proof. vm_compute. reflexivity. Qed.

(** C3 as stated fails.  With a running container and a publish that
    fails, the error returned is the publish error, not the timeout
    error.  And with a terminated container and a valid artifact on
    disk, the decision tree publishes the artifact's outcome while the
    timeout path publishes the exit-code classification. *)
Lemma UpdateFromTimeout_not_as_stated :
  fst (UpdateFromTimeout duration_string the_reporter mock_publish_fails)
  = Some (Wrap (lit "failed to update job status: ")
            (New (lit "k8s update failed")))
  /\ tryParseResultFile host_with_artifact the_reporter = inr artifact_record
  /\ LastUpdatedCondition
       (snd (HandleTermination host_with_artifact the_reporter
               (exited 0 "Completed")
               (mock_terminated (exited 0 "Completed"))))
     = condition the_reporter (lit "True") (lit "AllChecksPassed")
         (lit "All validations passed")
  /\ k8s.Reason
       (LastUpdatedCondition
          (snd (UpdateFromTimeout duration_string the_reporter
                  (mock_terminated (exited 0 "Completed")))))
     = lit "AdapterMissingResults".
Proof. repeat split; vm_compute; reflexivity. Qed.

(** C4 as stated fails: on the error path the condition is published
    and the run still returns the parse error. *)
Lemma resolve_error_after_publish :
  fst (UpdateJobStatus NewMockK8sClient
         (condition the_reporter (lit "False") (lit "InvalidResultFormat")
            (lit "Failed to parse adapter result: " ++ Error parse_error)))
  = None
  /\ resolve host_without_artifact duration_string the_reporter
       (SigError parse_error) NewMockK8sClient
     = (Some parse_error,
        {| UpdateJobStatusFunc := None;
           GetAdapterContainerStatusFunc := None;
           LastUpdatedCondition :=
             condition the_reporter (lit "False") (lit "InvalidResultFormat")
               (lit "Failed to parse adapter result: " ++ Error parse_error) |}).
Proof. split; vm_compute; reflexivity. Qed.


(** A changed condition replaces the stored one in place and takes the
    clock's time; a condition of a new type goes to the end. *)
Lemma UpdateJobStatus_replace_and_append :
  option_map batchv1.Conditions
    (k8s.job (k8s.server (snd (k8s.UpdateJobStatus the_client
       {| k8s.Type_ := lit "Complete";
          k8s.Status := lit "True";
          k8s.Reason := lit "Done";
          k8s.Message := lit "finished";
          k8s.LastTransitionTime := time.zero |}))))
  = Some [ {| batchv1.Type_ := lit "Complete";
              batchv1.Status := lit "True";
              batchv1.LastProbeTime := time.zero;
              batchv1.LastTransitionTime := 9%Z;
              batchv1.Reason := lit "Done";
              batchv1.Message := lit "finished" |};
           available_true ]
  /\ option_map (fun j => List.length (batchv1.Conditions j))
       (k8s.job (k8s.server (snd (k8s.UpdateJobStatus the_client
          {| k8s.Type_ := lit "Failed";
             k8s.Status := lit "False";
             k8s.Reason := lit "r";
             k8s.Message := lit "m";
             k8s.LastTransitionTime := 4%Z |}))))
     = Some 3.
Proof. split; vm_compute; reflexivity. Qed.

(** Republishing after the clock moved on is a no-op: the condition
    stored at time 9 keeps its transition time at time 20. *)
Lemma UpdateJobStatus_republish_keeps_time :
  let complete :=
    {| k8s.Type_ := lit "Complete";
       k8s.Status := lit "True";
       k8s.Reason := lit "Done";
       k8s.Message := lit "finished";
       k8s.LastTransitionTime := time.zero |} in
  let published := snd (k8s.UpdateJobStatus the_client complete) in
  let later :=
    k8s.with_server published
      {| k8s.job := k8s.job (k8s.server published);
         k8s.pods := k8s.pods (k8s.server published);
         k8s.concurrent := [];
         k8s.writes := k8s.writes (k8s.server published);
         k8s.clock := 20%Z |} in
  k8s.writes (k8s.server published) = 1
  /\ k8s.UpdateJobStatus later complete = (None, later)
  /\ option_map (fun j => map batchv1.LastTransitionTime (batchv1.Conditions j))
       (k8s.job (k8s.server later))
     = Some [9%Z; 5%Z].
Proof. repeat split; vm_compute; reflexivity. Qed.

(** One concurrent writer costs one retry; four in a row exhaust
    [retry.DefaultBackoff] and the conflict is returned. *)
Lemma UpdateJobStatus_retries_on_conflict :
  let complete :=
    {| k8s.Type_ := lit "Complete";
       k8s.Status := lit "True";
       k8s.Reason := lit "Done";
       k8s.Message := lit "finished";
       k8s.LastTransitionTime := time.zero |} in
  let contended (n : nat) :=
    k8s.with_server the_client
      {| k8s.job := Some the_job;
         k8s.pods := fun _ => None;
         k8s.concurrent := repeat the_job n;
         k8s.writes := 0;
         k8s.clock := 9%Z |} in
  fst (k8s.UpdateJobStatus (contended 1) complete) = None
  /\ k8s.writes (k8s.server (snd (k8s.UpdateJobStatus (contended 1) complete)))
     = 1
  /\ option_map IsConflict (fst (k8s.UpdateJobStatus (contended 4) complete))
     = Some true
  /\ k8s.writes (k8s.server (snd (k8s.UpdateJobStatus (contended 4) complete)))
     = 0.
Proof. repeat split; vm_compute; reflexivity. Qed.

(* ================================================================== *)
(** ** More on [truncateUTF8], [Validate] and the parser               *)
(* ================================================================== *)

(** Whatever the bytes, the loop returns a prefix no longer than its
    start index. *)
Lemma truncate_loop_prefix (s : gostring) (i : nat) :
  exists j, j <= i /\ truncate_loop s i = firstn j s.
Proof.
  induction i as [|i IH].
  - exists 0. split; [lia | reflexivity].
  - cbn [truncate_loop]. unfold index, slice_to.
    destruct (nth_error s (S i)) as [b|].
    + destruct (RuneStart b).
      * exists (S i). split; [lia | reflexivity].
      * destruct IH as (j & Hj & ->). exists j. split; [lia | reflexivity].
    + exists 0. split; [lia | reflexivity].
Qed.

Lemma truncateUTF8_is_prefix (s : gostring) (maxBytes : Z) :
  prefix (truncateUTF8 s maxBytes) s.
Proof.
  unfold truncateUTF8. destruct (len s <=? maxBytes)%Z.
  - exists []. now rewrite app_nil_r.
  - destruct (truncate_loop_prefix s (Z.to_nat maxBytes)) as (j & _ & ->).
    exists (skipn j s). symmetry. apply firstn_skipn.
Qed.

Lemma truncateUTF8_le (s : gostring) (maxBytes : Z) :
  (0 <= maxBytes)%Z -> (len (truncateUTF8 s maxBytes) <= maxBytes)%Z.
Proof.
  intros Hmax. unfold truncateUTF8.
  destruct (len s <=? maxBytes)%Z eqn:E; [now apply Z.leb_le|].
  destruct (truncate_loop_prefix s (Z.to_nat maxBytes)) as (j & Hj & ->).
  unfold len. rewrite length_firstn. lia.
Qed.

Lemma normalize_le (field dflt : gostring) (maxLen : Z) :
  (0 <= maxLen)%Z -> (len (normalize field dflt maxLen) <= maxLen)%Z.
Proof.
  intros Hmax. unfold normalize.
  set (f := if eqb (TrimSpace field) [] then dflt else TrimSpace field).
  destruct (len f >? maxLen)%Z eqn:E.
  - now apply truncateUTF8_le.
  - destruct (Z.gtb_spec (len f) maxLen); [discriminate | lia].
Qed.

(** X1: after a successful [Validate] the reason holds at most 128
    bytes and the message at most 1024, whatever bytes the fields held
    (valid UTF-8 or not), and the status and the details are the
    ones given. *)
Theorem Validate_bounds (r : AdapterResult) :
  snd (Validate r) = None ->
  (len (Reason (fst (Validate r))) <= 128)%Z
  /\ (len (Message (fst (Validate r))) <= 1024)%Z
  /\ Status (fst (Validate r)) = Status r
  /\ Details (fst (Validate r)) = Details r.
Proof.
  intros Hok. destruct (status_dec r) as [Hs|[H1 H2]].
  - rewrite (Validate_valid_status r Hs). cbn [fst Reason Message Status Details].
    repeat split; apply normalize_le; unfold maxReasonLength, maxMessageLength; lia.
  - rewrite (Validate_invalid_status r H1 H2) in Hok. discriminate.
Qed.

Lemma Validate_bounds_witness :
  (len (Reason (fst (Validate scenario.oversized_record))) <= 128)%Z
  /\ (len (Message (fst (Validate scenario.oversized_record))) <= 1024)%Z.
Proof.
  destruct (Validate_bounds scenario.oversized_record) as (H1 & H2 & _).
  - vm_compute. reflexivity.
  - split; [exact H1 | exact H2].
Defined.

(** In well-formed text a cut inside the string is a boundary exactly
    in front of a byte that starts a rune. *)
Lemma boundary_RuneStart (s : gostring) (j : nat) (b : byte) :
  boundary s j -> nth_error s j = Some b -> RuneStart b = true.
Proof.
  intros (_ & _ & Hk) Hn.
  apply ValidString_iff_Runes in Hk.
  assert (Hs : skipn j s = b :: skipn (S j) s).
  { clear Hk. revert j Hn. induction s as [|x s IH]; intros [|j] Hn;
      try discriminate.
    - now injection Hn as ->.
    - cbn [skipn]. apply IH. exact Hn. }
  rewrite Hs in Hk. exact (Runes_head _ _ Hk).
Qed.

(** X2: on valid UTF-8 longer than the limit, [truncateUTF8] keeps the
    longest prefix within the limit that ends on a rune boundary: every
    boundary position up to the limit lies inside the result, and for a
    limit of at least 4 the result is shorter than the limit by at most
    3 bytes. *)
Theorem truncateUTF8_longest (s : gostring) (maxBytes : Z) :
  ValidString s = true ->
  (0 <= maxBytes)%Z ->
  (len s > maxBytes)%Z ->
  (forall j, (Z.of_nat j <= maxBytes)%Z -> boundary s j ->
             j <= length (truncateUTF8 s maxBytes))
  /\ ((4 <= maxBytes)%Z -> (maxBytes - 3 <= len (truncateUTF8 s maxBytes))%Z).
Proof.
  intros Hv Hmax Hlen. split.
  - intros j Hj Hb. unfold truncateUTF8.
    destruct (len s <=? maxBytes)%Z eqn:E; [apply Z.leb_le in E; lia|].
    rewrite len_nat in Hlen.
    destruct j as [|j]; [lia|].
    destruct (nth_error s (S j)) as [b|] eqn:Hn;
      [|apply nth_error_None in Hn; lia].
    pose proof (boundary_RuneStart s (S j) b Hb Hn) as Hstart.
    destruct (truncate_loop_spec s (Z.to_nat maxBytes)) as
        [(k & b' & Hk & _ & _ & -> & Hrest) | (_ & Hnone)]; [lia | |].
    + rewrite length_firstn.
      destruct (Nat.lt_ge_cases k (S j)) as [Hlt|Hge]; [|lia].
      assert (RuneStart b = false) by (apply (Hrest (S j) b); [lia | exact Hn]).
      congruence.
    + assert (RuneStart b = false) by (apply (Hnone (S j) b); [lia | exact Hn]).
      congruence.
  - intros H4. now apply truncateUTF8_length.
Qed.

Lemma truncateUTF8_longest_witness :
  127 <= length (truncateUTF8 scenario.long_text maxReasonLength).
Proof.
  refine (proj1 (truncateUTF8_longest scenario.long_text maxReasonLength
                   _ _ _) 127 _ _).
  - vm_compute. reflexivity.
  - vm_compute. discriminate.
  - vm_compute. reflexivity.
  - vm_compute. discriminate.
  - repeat split; vm_compute; try reflexivity. lia.
Defined.

(** X3: under a valid status a validated field is the default when the
    trimmed input is empty, and otherwise a prefix of the trimmed
    input, the whole of it when it fits the limit: [Validate] never
    invents or reorders bytes. *)
Theorem Validate_keeps_content (r : AdapterResult) :
  Status r = StatusSuccess \/ Status r = StatusFailure ->
  (TrimSpace (Reason r) = [] /\ Reason (fst (Validate r)) = DefaultReason
   \/ TrimSpace (Reason r) <> []
      /\ prefix (Reason (fst (Validate r))) (TrimSpace (Reason r))
      /\ ((len (TrimSpace (Reason r)) <= 128)%Z ->
          Reason (fst (Validate r)) = TrimSpace (Reason r)))
  /\ (TrimSpace (Message r) = [] /\ Message (fst (Validate r)) = DefaultMessage
      \/ TrimSpace (Message r) <> []
         /\ prefix (Message (fst (Validate r))) (TrimSpace (Message r))
         /\ ((len (TrimSpace (Message r)) <= 1024)%Z ->
             Message (fst (Validate r)) = TrimSpace (Message r))).
Proof.
  intros Hs. rewrite (Validate_valid_status r Hs). cbn [fst Reason Message].
  assert (Hfield : forall field dflt maxLen,
             (len dflt <= maxLen)%Z ->
             TrimSpace field = [] /\ normalize field dflt maxLen = dflt
             \/ TrimSpace field <> []
                /\ prefix (normalize field dflt maxLen) (TrimSpace field)
                /\ ((len (TrimSpace field) <= maxLen)%Z ->
                    normalize field dflt maxLen = TrimSpace field)).
  { intros field dflt maxLen Hd. unfold normalize.
    destruct (eqb (TrimSpace field) []) eqn:E.
    - left. split; [now apply eqb_eq|].
      destruct (Z.gtb_spec (len dflt) maxLen); [lia | reflexivity].
    - right. split; [now apply eqb_neq|].
      destruct (Z.gtb_spec (len (TrimSpace field)) maxLen).
      + split; [apply truncateUTF8_is_prefix | lia].
      + split; [exists []; now rewrite app_nil_r | reflexivity]. }
  split; apply Hfield; vm_compute; discriminate.
Qed.

Lemma Validate_keeps_content_witness :
  Reason (fst (Validate scenario.padded_record)) = lit "TestReason"
  /\ Message (fst (Validate scenario.padded_record)) = DefaultMessage.
Proof.
  destruct (Validate_keeps_content scenario.padded_record (or_introl eq_refl))
    as [[[He _]|(_ & _ & Hr)] [[_ Hm]|(Hne & _)]].
  - vm_compute in He. discriminate.
  - vm_compute in He. discriminate.
  - split; [|exact Hm]. rewrite Hr; [reflexivity | vm_compute; discriminate].
  - exfalso. apply Hne. reflexivity.
Defined.

(** With the file there and Abs and Stat succeeding, the size decides
    whether the content is looked at. *)
Lemma ParseFile_sized (host : Host) (path p : gostring) (fi : FileInfo) :
  Abs host path = inr p -> Stat host p = inr fi ->
  ParseFile host path
  = if (Size fi =? 0)%Z then
      inl (New (lit "result file is empty: path=" ++ p))
    else if (Size fi >? maxResultFileSize)%Z then
      inl (New (lit "result file too large: path=" ++ p ++ lit " size="
                ++ itoa (Size fi) ++ lit " max=" ++ itoa maxResultFileSize))
    else match ReadFile host p with
         | inl err =>
           inl (Wrap (lit "failed to read result file path=" ++ p ++ lit ": ")
                  err)
         | inr data => Parse host data
         end.
Proof. intros Ha Hs. unfold ParseFile. now rewrite Ha, Hs. Qed.

(** X4: every record [ParseFile] returns satisfies the contract: one
    of the two status tokens, a reason of at most 128 bytes, a message
    of at most 1024, and it is the validated decoding of the content of
    a non-empty file of at most 1 MiB. *)
Theorem ParseFile_record_contract (host : Host) (path : gostring)
        (rec : AdapterResult) :
  ParseFile host path = inr rec ->
  (Status rec = StatusSuccess \/ Status rec = StatusFailure)
  /\ (len (Reason rec) <= 128)%Z /\ (len (Message rec) <= 1024)%Z
  /\ exists p fi data decoded,
      Abs host path = inr p /\ Stat host p = inr fi
      /\ Size fi <> 0%Z /\ (Size fi <= 1048576)%Z
      /\ ReadFile host p = inr data /\ Unmarshal host data = inr decoded
      /\ rec = fst (Validate decoded).
Proof.
  intros Hp. unfold ParseFile in Hp.
  destruct (Abs host path) as [e|p] eqn:Ha; [discriminate|].
  destruct (Stat host p) as [e|fi] eqn:Hs; [discriminate|].
  destruct (Z.eqb_spec (Size fi) 0); [discriminate|].
  destruct (Z.gtb_spec (Size fi) maxResultFileSize); [discriminate|].
  destruct (ReadFile host p) as [e|data] eqn:Hr; [discriminate|].
  unfold Parse in Hp.
  destruct (Unmarshal host data) as [e|decoded] eqn:Hu; [discriminate|].
  destruct (status_dec decoded) as [Hok|[H1 H2]].
  - rewrite (Validate_valid_status decoded Hok) in Hp. injection Hp as <-.
    cbn [Status Reason Message].
    split; [exact Hok|].
    split; [apply normalize_le; unfold maxReasonLength; lia|].
    split; [apply normalize_le; unfold maxMessageLength; lia|].
    exists p, fi, data, decoded.
    rewrite (Validate_valid_status decoded Hok).
    unfold maxResultFileSize in *. repeat split; try assumption; lia.
  - rewrite (Validate_invalid_status decoded H1 H2) in Hp. discriminate.
Qed.

Lemma ParseFile_record_contract_witness :
  (len (Reason scenario.artifact_record) <= 128)%Z
  /\ (len (Message scenario.artifact_record) <= 1024)%Z.
Proof.
  destruct (ParseFile_record_contract scenario.host_with_artifact
              scenario.artifact_path scenario.artifact_record)
    as (_ & H1 & H2 & _).
  - vm_compute. reflexivity.
  - split; [exact H1 | exact H2].
Defined.

(** X5: the size gate of [ParseFile].  An empty file and a file of
    more than 1 MiB are refused on their size alone: the error is the
    same whatever reading and decoding would give, and it is not a
    not-exist error.  A file of exactly 1 MiB passes the gate. *)
Theorem ParseFile_size_gate (host : Host) (path p : gostring) (fi : FileInfo) :
  Abs host path = inr p ->
  Stat host p = inr fi ->
  (Size fi = 0%Z \/ (Size fi > 1048576)%Z ->
   exists e,
     ParseFile host path = inl e /\ IsNotExist e = false
     /\ forall host', Abs host' path = inr p -> Stat host' p = inr fi ->
                      ParseFile host' path = inl e)
  /\ ((0 < Size fi <= 1048576)%Z ->
      ParseFile host path
      = match ReadFile host p with
        | inl err =>
          inl (Wrap (lit "failed to read result file path=" ++ p ++ lit ": ")
                 err)
        | inr data => Parse host data
        end).
Proof.
  intros Ha Hs. rewrite (ParseFile_sized host path p fi Ha Hs).
  unfold maxResultFileSize.
  destruct (Z.eqb_spec (Size fi) 0) as [E0|E0];
    [|destruct (Z.gtb_spec (Size fi) (1 * 1024 * 1024)) as [E1|E1]].
  - split; [|lia]. intros _. eexists. split; [reflexivity|].
    split; [reflexivity|]. intros host' Ha' Hs'.
    rewrite (ParseFile_sized host' path p fi Ha' Hs').
    destruct (Z.eqb_spec (Size fi) 0); [reflexivity | contradiction].
  - split; [|lia]. intros _. eexists. split; [reflexivity|].
    split; [reflexivity|]. intros host' Ha' Hs'.
    rewrite (ParseFile_sized host' path p fi Ha' Hs').
    destruct (Z.eqb_spec (Size fi) 0); [contradiction|].
    unfold maxResultFileSize.
    destruct (Z.gtb_spec (Size fi) (1 * 1024 * 1024)); [reflexivity | lia].
  - split; [lia|]. intros _. reflexivity.
Qed.

Lemma ParseFile_size_gate_witness :
  ParseFile scenario.host_with_artifact scenario.artifact_path
  = Parse scenario.host_with_artifact scenario.artifact_json.
Proof.
  refine (proj2 (ParseFile_size_gate scenario.host_with_artifact
                   scenario.artifact_path scenario.artifact_path
                   {| Size := len scenario.artifact_json |} _ _) _).
  - vm_compute. reflexivity.
  - vm_compute. reflexivity.
  - vm_compute. split; [reflexivity | discriminate].
Defined.

(* ================================================================== *)
(** ** More on the client                                              *)
(* ================================================================== *)

Lemma find_first {A : Type} (f : A -> bool) (l : list A) (x : A) :
  find f l = Some x ->
  exists pre post, l = pre ++ x :: post /\ f x = true /\ find f pre = None.
Proof.
  induction l as [|y l IH]; intros Hf; [discriminate|].
  cbn [find] in Hf. destruct (f y) eqn:E.
  - injection Hf as <-. exists [], l. repeat split. exact E.
  - destruct (IH Hf) as (pre & post & -> & Hx & Hpre).
    exists (y :: pre), post. repeat split; [exact Hx|].
    cbn [find]. now rewrite E.
Qed.

Lemma find_app_first {A : Type} (f : A -> bool) (pre l : list A) :
  find f pre = None -> find f (pre ++ l) = find f l.
Proof.
  induction pre as [|y pre IH]; intros Hf; [reflexivity|].
  cbn [find app] in *. destruct (f y); [discriminate | now apply IH].
Qed.

Lemma same_content_eq (a b : batchv1.JobCondition) :
  k8s.same_content a b = true <->
  batchv1.Status a = batchv1.Status b
  /\ batchv1.Reason a = batchv1.Reason b
  /\ batchv1.Message a = batchv1.Message b.
Proof.
  unfold k8s.same_content. rewrite !andb_true_iff, !eqb_eq. tauto.
Qed.

Lemma has_type_new_condition (c : k8s.Client) (cond : k8s.JobCondition) :
  has_type (k8s.Type_ cond) (new_condition c cond) = true.
Proof. apply eqb_refl. Qed.

Lemma same_frame_refl (c : k8s.Client) : same_frame c c.
Proof. repeat split. Qed.

Lemma same_frame_trans (a b c : k8s.Client) :
  same_frame a b -> same_frame b c -> same_frame a c.
Proof.
  intros (H1 & H2 & H3 & H4) (G1 & G2 & G3 & G4).
  repeat split; congruence.
Qed.

(** What one attempt does: it returns nil with the condition on the
    Job, after no write or one; or a conflict, the Job replaced by the
    concurrent writer's; or another error with nothing changed. *)
Lemma update_attempt_outcome (cond : k8s.JobCondition) (c : k8s.Client) :
  same_frame c (snd (k8s.update_attempt cond c))
  /\ match fst (k8s.update_attempt cond c) with
     | None =>
       carries (snd (k8s.update_attempt cond c)) cond
       /\ (snd (k8s.update_attempt cond c) = c
           \/ k8s.writes (k8s.server (snd (k8s.update_attempt cond c)))
              = S (k8s.writes (k8s.server c)))
     | Some e =>
       k8s.writes (k8s.server (snd (k8s.update_attempt cond c)))
       = k8s.writes (k8s.server c)
       /\ (IsConflict e = false -> snd (k8s.update_attempt cond c) = c)
     end.
Proof.
  destruct (k8s.valid_status (k8s.Status cond)) eqn:Hv.
  2:{ unfold k8s.update_attempt. rewrite Hv. cbn [negb fst snd].
      split; [apply same_frame_refl | auto]. }
  destruct (k8s.job (k8s.server c)) as [j|] eqn:Hj.
  2:{ unfold k8s.update_attempt, k8s.Get. rewrite Hv, Hj. cbn.
      split; [apply same_frame_refl | auto]. }
  rewrite (update_attempt_unfold c cond j Hv Hj).
  destruct (find (has_type (k8s.Type_ cond)) (batchv1.Conditions j))
    as [ex|] eqn:Hf.
  - destruct (range_conditions_present _ (new_condition c cond) _ Hf)
      as (pre & post & Heq & Hpre & ->).
    destruct (k8s.same_content ex (new_condition c cond)) eqn:Hsame.
    + cbn [fst snd]. split; [apply same_frame_refl|]. split; [|now left].
      apply same_content_eq in Hsame. destruct Hsame as (H1 & H2 & H3).
      exists j, ex. repeat split; assumption.
    + cbn [negb]. unfold k8s.UpdateStatus. rewrite Hj.
      destruct (k8s.concurrent (k8s.server c)) as [|other rest];
        cbn [fst snd k8s.with_server k8s.server k8s.writes].
      * split; [repeat split|]. split; [|now right].
        eexists. exists (new_condition c cond).
        cbn [k8s.job].
        split; [reflexivity|]. cbn [batchv1.Conditions].
        split; [|repeat split].
        change (batchv1.Type_ (new_condition c cond)) with (k8s.Type_ cond)
          in Hpre.
        rewrite (find_app_first _ _ _ Hpre). cbn [find].
        now rewrite has_type_new_condition.
      * split; [repeat split|]. split; [reflexivity | discriminate].
  - rewrite (range_conditions_absent _ (new_condition c cond) Hf).
    cbn [negb]. unfold k8s.UpdateStatus. rewrite Hj.
    destruct (k8s.concurrent (k8s.server c)) as [|other rest];
      cbn [fst snd k8s.with_server k8s.server k8s.writes].
    + split; [repeat split|]. split; [|now right].
      eexists. exists (new_condition c cond).
      cbn [k8s.job].
      split; [reflexivity|]. cbn [batchv1.Conditions].
      split; [|repeat split].
      rewrite (find_app_first _ _ _ Hf). cbn [find].
      now rewrite has_type_new_condition.
    + split; [repeat split|]. split; [reflexivity | discriminate].
Qed.

(** The retry loop keeps what each attempt keeps. *)
Lemma RetryOnConflict_outcome (cond : k8s.JobCondition) (steps : nat) :
  forall (lastErr : option error) (c : k8s.Client),
    (steps = 0 -> lastErr <> None) ->
    let out := k8s.RetryOnConflict steps (k8s.update_attempt cond) lastErr c in
    same_frame c (snd out)
    /\ match fst out with
       | None =>
         carries (snd out) cond
         /\ (k8s.writes (k8s.server (snd out)) = k8s.writes (k8s.server c)
             \/ k8s.writes (k8s.server (snd out))
                = S (k8s.writes (k8s.server c)))
       | Some _ =>
         k8s.writes (k8s.server (snd out)) = k8s.writes (k8s.server c)
       end.
Proof.
  induction steps as [|n IH]; intros lastErr c Hlast; cbv zeta.
  - cbn [k8s.RetryOnConflict fst snd].
    split; [apply same_frame_refl|].
    destruct lastErr; [reflexivity | now destruct Hlast].
  - cbn [k8s.RetryOnConflict].
    pose proof (update_attempt_outcome cond c) as [Hframe Hout].
    destruct (k8s.update_attempt cond c) as [[e|] c1]; cbn [fst snd] in *.
    + destruct Hout as [Hw Hsame].
      destruct (IsConflict e).
      * specialize (IH (Some e) c1 ltac:(discriminate)). cbv zeta in IH.
        destruct IH as [Hf1 Hrest].
        split; [exact (same_frame_trans _ _ _ Hframe Hf1)|].
        destruct (fst (k8s.RetryOnConflict n (k8s.update_attempt cond)
                         (Some e) c1)).
        -- congruence.
        -- destruct Hrest as [Hc Hws]. split; [exact Hc|].
           rewrite <- Hw. exact Hws.
      * cbn [fst snd]. split; [exact Hframe | exact Hw].
    + destruct Hout as [Hc Hws]. split; [exact Hframe|]. split; [exact Hc|].
      destruct Hws as [->|Hws]; auto.
Qed.

Lemma UpdateJobStatus_outcome (c : k8s.Client) (cond : k8s.JobCondition) :
  same_frame c (snd (k8s.UpdateJobStatus c cond))
  /\ match fst (k8s.UpdateJobStatus c cond) with
     | None =>
       carries (snd (k8s.UpdateJobStatus c cond)) cond
       /\ (k8s.writes (k8s.server (snd (k8s.UpdateJobStatus c cond)))
           = k8s.writes (k8s.server c)
           \/ k8s.writes (k8s.server (snd (k8s.UpdateJobStatus c cond)))
              = S (k8s.writes (k8s.server c)))
     | Some _ =>
       k8s.writes (k8s.server (snd (k8s.UpdateJobStatus c cond)))
       = k8s.writes (k8s.server c)
     end.
Proof.
  unfold k8s.UpdateJobStatus, k8s.DefaultBackoffSteps.
  apply (RetryOnConflict_outcome cond 4 None c). discriminate.
Qed.

(** X6: when [UpdateJobStatus] returns nil, the Job on the server has
    a condition of the published type, the first of that type, with
    the published status, reason and message; this holds through
    conflicts with concurrent writers and retries. *)
Theorem UpdateJobStatus_nil_carries (c : k8s.Client) (cond : k8s.JobCondition) :
  fst (k8s.UpdateJobStatus c cond) = None ->
  carries (snd (k8s.UpdateJobStatus c cond)) cond.
Proof.
  intros Hnil. pose proof (UpdateJobStatus_outcome c cond) as [_ Hout].
  rewrite Hnil in Hout. exact (proj1 Hout).
Qed.

Lemma UpdateJobStatus_nil_carries_witness :
  carries (snd (k8s.UpdateJobStatus scenario.contended_client
                  scenario.complete_true))
          scenario.complete_true.
Proof.
  apply (UpdateJobStatus_nil_carries scenario.contended_client
           scenario.complete_true).
  vm_compute. reflexivity.
Defined.

(** X7: [UpdateJobStatus] writes the Job's status at most once per
    call, and not at all when it returns an error (a refused write
    leaves no trace of this client); it never changes the client's
    namespace and job name, the pods or the clock. *)
Theorem UpdateJobStatus_writes_once (c : k8s.Client) (cond : k8s.JobCondition) :
  same_frame c (snd (k8s.UpdateJobStatus c cond))
  /\ (fst (k8s.UpdateJobStatus c cond) <> None ->
      k8s.writes (k8s.server (snd (k8s.UpdateJobStatus c cond)))
      = k8s.writes (k8s.server c))
  /\ (k8s.writes (k8s.server (snd (k8s.UpdateJobStatus c cond)))
      = k8s.writes (k8s.server c)
      \/ k8s.writes (k8s.server (snd (k8s.UpdateJobStatus c cond)))
         = S (k8s.writes (k8s.server c))).
Proof.
  pose proof (UpdateJobStatus_outcome c cond) as [Hframe Hout].
  split; [exact Hframe|].
  destruct (fst (k8s.UpdateJobStatus c cond)).
  - split; [intros _; exact Hout | now left].
  - split; [intros Hn; now destruct Hn | exact (proj2 Hout)].
Qed.


Lemma other_types_app (t : gostring) (a b : list batchv1.JobCondition) :
  other_types t (a ++ b) = other_types t a ++ other_types t b.
Proof. apply filter_app. Qed.

(** X9: with no concurrent writer, [UpdateJobStatus] leaves the
    conditions of every other type as they were, in their order, and
    the number of conditions stays or grows by one. *)
Theorem UpdateJobStatus_keeps_other_types (c : k8s.Client)
        (cond : k8s.JobCondition) (j : batchv1.Job) :
  k8s.job (k8s.server c) = Some j ->
  k8s.concurrent (k8s.server c) = [] ->
  exists j',
    k8s.job (k8s.server (snd (k8s.UpdateJobStatus c cond))) = Some j'
    /\ other_types (k8s.Type_ cond) (batchv1.Conditions j')
       = other_types (k8s.Type_ cond) (batchv1.Conditions j)
    /\ (length (batchv1.Conditions j') = length (batchv1.Conditions j)
        \/ length (batchv1.Conditions j') = S (length (batchv1.Conditions j))).
Proof.
  intros Hj Hc.
  unfold k8s.UpdateJobStatus, k8s.DefaultBackoffSteps.
  cbn [k8s.RetryOnConflict].
  destruct (k8s.valid_status (k8s.Status cond)) eqn:Hv.
  2:{ unfold k8s.update_attempt. rewrite Hv. cbn [negb fst snd].
      exists j. repeat split; [exact Hj | now left]. }
  rewrite (update_attempt_unfold c cond j Hv Hj).
  destruct (find (has_type (k8s.Type_ cond)) (batchv1.Conditions j))
    as [ex|] eqn:Hf.
  - destruct (find_first _ _ _ Hf) as (pre0 & post0 & _ & Hex & _).
    destruct (range_conditions_present _ (new_condition c cond) _ Hf)
      as (pre & post & Heq & Hpre & ->).
    destruct (k8s.same_content ex (new_condition c cond)).
    + cbn [fst snd]. exists j. repeat split; [exact Hj | now left].
    + cbn [negb]. rewrite (UpdateStatus_accepted c _ j Hj Hc).
      cbn [fst snd]. eexists. split; [reflexivity|].
      cbn [batchv1.Conditions]. rewrite Heq.
      split.
      * rewrite !other_types_app. f_equal. unfold other_types.
        cbn [filter]. rewrite has_type_new_condition, Hex. reflexivity.
      * left. rewrite !length_app. reflexivity.
  - rewrite (range_conditions_absent _ (new_condition c cond) Hf).
    cbn [negb]. rewrite (UpdateStatus_accepted c _ j Hj Hc).
    cbn [fst snd]. eexists. split; [reflexivity|].
    cbn [batchv1.Conditions]. split.
    + rewrite other_types_app. unfold other_types at 2. cbn [filter].
      rewrite has_type_new_condition. cbn [negb]. now rewrite app_nil_r.
    + right. rewrite length_app. cbn [length]. lia.
Qed.

Lemma UpdateJobStatus_keeps_other_types_witness :
  exists j',
    k8s.job (k8s.server (snd (k8s.UpdateJobStatus scenario.the_client
                                scenario.complete_true))) = Some j'
    /\ other_types (lit "Complete") (batchv1.Conditions j')
       = [scenario.available_true].
Proof.
  destruct (UpdateJobStatus_keeps_other_types scenario.the_client
              scenario.complete_true scenario.the_job eq_refl eq_refl)
    as (j' & Hj' & Hother & _).
  exists j'. split; [exact Hj' | exact Hother].
Defined.


(* ================================================================== *)
(** ** More on the reporter                                            *)
(* ================================================================== *)

Lemma UpdateFromResult_unfold {C : Type} `{K8sClientInterface C}
      (r : StatusReporter) (adapterResult : AdapterResult) (c : C) :
  UpdateFromResult r adapterResult c
  = (match fst (UpdateJobStatus c (result_condition r adapterResult)) with
     | Some err =>
       Some (Wrap (lit "failed to update job status: pod=" ++ podName r
                   ++ lit " condition=" ++ conditionType r ++ lit ": ") err)
     | None => None
     end,
     snd (UpdateJobStatus c (result_condition r adapterResult))).
Proof.
  unfold UpdateFromResult, result_condition.
  destruct (IsSuccess adapterResult); cbn [negb];
    match goal with
    | |- context [UpdateJobStatus ?a ?b] =>
      destruct (UpdateJobStatus a b) as [[e|] c']
    end; reflexivity.
Qed.

Section ResolveRecorded.
Variable host : Host.
Variable DurationString : time.Duration -> gostring.
Context {C : Type} `{K8sClientInterface C}.
Variable r : StatusReporter.

Lemma UpdateFromError_unfold (err : error) (c : Recorded C) :
  UpdateFromError r err c
  = let cond := condition r ConditionStatusFalse ReasonInvalidResultFormat
                  (lit "Failed to parse adapter result: " ++ Error err) in
    (Some (match fst (UpdateJobStatus (client c) cond) with
           | Some updateErr =>
             Wrap (lit "failed to update job status: ") updateErr
           | None => err
           end),
     {| client := snd (UpdateJobStatus (client c) cond);
        calls := calls c ++ [CallUpdateJobStatus cond] |}).
Proof.
  unfold UpdateFromError. cbv zeta. rewrite Recorded_UpdateJobStatus.
  destruct (fst (UpdateJobStatus (client c) _)); reflexivity.
Qed.


End ResolveRecorded.

Section ResolveClient.
Variable host : Host.
Variable DurationString : time.Duration -> gostring.
Variable r : StatusReporter.

(** X12: with the production client, a run resolved by an artifact
    that returns nil has left the artifact's condition on the Job: the
    first condition of the configured type has status True for a
    success record and False otherwise, and the record's reason and
    message. *)
Theorem resolve_nil_carries (c : k8s.Client) (sig : Signal)
        (adapterResult : AdapterResult) :
  sig = SigResult adapterResult
  \/ (exists terminated, sig = SigTerminated terminated)
     /\ tryParseResultFile host r = inr adapterResult ->
  fst (resolve host DurationString r sig c) = None ->
  carries (snd (resolve host DurationString r sig c))
          (result_condition r adapterResult).
Proof.
  intros Hsig.
  assert (Heq : resolve host DurationString r sig c
                = UpdateFromResult r adapterResult c).
  { destruct Hsig as [->|[[t ->] Hp]]; cbn [resolve]; [reflexivity|].
    unfold HandleTermination. now rewrite Hp. }
  rewrite Heq. clear Heq Hsig.
  rewrite UpdateFromResult_unfold. cbn [fst snd].
  pose proof (UpdateJobStatus_outcome c (result_condition r adapterResult))
    as [_ Hout].
  change (@UpdateJobStatus k8s.Client Client_K8sClientInterface)
    with k8s.UpdateJobStatus.
  destruct (fst (k8s.UpdateJobStatus c (result_condition r adapterResult)));
    [discriminate|].
  intros _. exact (proj1 Hout).
Qed.

End ResolveClient.

Lemma resolve_nil_carries_witness :
  carries (snd (resolve scenario.host_with_artifact scenario.duration_string
                  scenario.the_reporter (SigResult scenario.artifact_record)
                  scenario.contended_client))
          (result_condition scenario.the_reporter scenario.artifact_record).
Proof.
  apply (resolve_nil_carries scenario.host_with_artifact
           scenario.duration_string scenario.the_reporter
           scenario.contended_client (SigResult scenario.artifact_record)
           scenario.artifact_record).
  - left. reflexivity.
  - vm_compute. reflexivity.
Defined.

(* ================================================================== *)
(** ** The watchers                                                    *)
(* ================================================================== *)

Import watch.

Section Poller.
Variable r : StatusReporter.

(** X13: one tick of the artifact watcher.  It sends nothing exactly
    when the stat of the results path fails with a not-exist error; it
    sends a result exactly when [tryParseResultFile], the check of the
    termination path, returns that record; an error signal means that
    check fails too. *)
Theorem poll_tick_decision (host : Host) :
  (poll_tick r host = None
   <-> exists e, Stat host (resultsPath r) = inl e /\ IsNotExist e = true)
  /\ (forall rec, poll_tick r host = Some (SigResult rec)
                  <-> tryParseResultFile host r = inr rec)
  /\ (forall e, poll_tick r host = Some (SigError e) ->
                exists e', tryParseResultFile host r = inl e')
  /\ (forall terminated, poll_tick r host <> Some (SigTerminated terminated))
  /\ poll_tick r host <> Some SigDeadline.
Proof.
  unfold poll_tick, tryParseResultFile.
  destruct (Stat host (resultsPath r)) as [e|fi].
  - destruct (IsNotExist e) eqn:E.
    + split; [split; [intros _; now exists e | reflexivity]|].
      split; [intros rec; split; discriminate|].
      repeat split; discriminate.
    + split; [split; [discriminate | intros (e0 & [= <-] & He); congruence]|].
      split; [intros rec; split; discriminate|].
      split; [intros e0 _; now exists e|].
      split; [intros t|]; discriminate.
  - destruct (ParseFile host (resultsPath r)) as [e|rec0].
    + split; [split; [discriminate | intros (e0 & He & _); discriminate]|].
      split; [intros rec; split; discriminate|].
      split; [intros e0 _; eexists; reflexivity|].
      split; [intros t|]; discriminate.
    + split; [split; [discriminate | intros (e0 & He & _); discriminate]|].
      split; [intros rec; split; intros [= <-]; reflexivity|].
      split; [discriminate|].
      split; [intros t|]; discriminate.
Qed.


End Poller.


Section InvalidArtifact.
Variable host : Host.
Variable DurationString : time.Duration -> gostring.
Context {C : Type} `{K8sClientInterface C}.
Variable r : StatusReporter.

(** X15: an artifact that is there and readable but does not decode.
    The watcher's tick sends the parse error, and resolving the run by
    it publishes one condition of status False and reason
    InvalidResultFormat whose message contains the decoder's
    diagnostic; the run returns the parse error when the publish
    returned nil. *)
Theorem undecodable_artifact_reported
        (fi0 fi : FileInfo) (p : gostring) (data : list byte) (d : error)
        (c : Recorded C) :
  Stat host (resultsPath r) = inr fi0 ->
  Abs host (resultsPath r) = inr p ->
  Stat host p = inr fi ->
  (0 < Size fi <= 1048576)%Z ->
  ReadFile host p = inr data ->
  Unmarshal host data = inl d ->
  let err := Wrap (lit "failed to parse JSON: ") d in
  poll_tick r host = Some (SigError err)
  /\ exists message,
      calls (snd (resolve host DurationString r (SigError err) c))
      = calls c
        ++ [CallUpdateJobStatus
              {| k8s.Type_ := conditionType r;
                 k8s.Status := lit "False";
                 k8s.Reason := lit "InvalidResultFormat";
                 k8s.Message := message;
                 k8s.LastTransitionTime := time.zero |}]
      /\ contains message (Error d)
      /\ (fst (UpdateJobStatus (client c)
                 (condition r (lit "False") (lit "InvalidResultFormat")
                            message)) = None ->
          fst (resolve host DurationString r (SigError err) c) = Some err).
Proof.
  intros Hs0 Ha Hs Hsize Hr Hu err. split.
  - unfold poll_tick. rewrite Hs0.
    rewrite (ParseFile_sized host (resultsPath r) p fi Ha Hs).
    unfold maxResultFileSize.
    destruct (Z.eqb_spec (Size fi) 0); [lia|].
    destruct (Z.gtb_spec (Size fi) (1 * 1024 * 1024)); [lia|].
    rewrite Hr. unfold Parse. now rewrite Hu.
  - exists (lit "Failed to parse adapter result: " ++ Error err).
    cbn [resolve]. rewrite UpdateFromError_unfold. cbv zeta. cbn [fst snd calls].
    split; [reflexivity|]. split.
    + exists (lit "Failed to parse adapter result: "
              ++ lit "failed to parse JSON: "), [].
      subst err. cbn [Error]. rewrite app_nil_r, <- app_assoc. reflexivity.
    + unfold condition, ConditionStatusFalse, ReasonInvalidResultFormat.
      intros ->. reflexivity.
Qed.

End InvalidArtifact.

Lemma undecodable_artifact_reported_witness :
  poll_tick scenario.the_reporter scenario.host_with_garbage
  = Some (SigError (Wrap (lit "failed to parse JSON: ")
                         scenario.decode_diagnostic)).
Proof.
  refine (proj1 (undecodable_artifact_reported scenario.host_with_garbage
                   scenario.duration_string scenario.the_reporter
                   {| Size := len scenario.garbage |}
                   {| Size := len scenario.garbage |}
                   scenario.artifact_path scenario.garbage
                   scenario.decode_diagnostic
                   (scenario.recorded NewMockK8sClient) _ _ _ _ _ _));
    vm_compute; try reflexivity.
  split; [reflexivity | discriminate].
Defined.

Lemma checkContainerStatus_unfold {C : Type} `{K8sClientInterface C}
      (r : StatusReporter) (c : C) :
  checkContainerStatus r c
  = (observed_termination
       (fst (GetAdapterContainerStatus c (podName r) (adapterContainerName r))),
     snd (GetAdapterContainerStatus c (podName r) (adapterContainerName r))).
Proof.
  unfold checkContainerStatus, observed_termination.
  destruct (GetAdapterContainerStatus c (podName r) (adapterContainerName r))
    as [[cs err] c1].
  cbn [fst snd].
  destruct err as [e|]; [reflexivity|].
  destruct cs as [cs|]; [|reflexivity].
  destruct (corev1.Terminated (corev1.State cs)); reflexivity.
Qed.

Section Monitor.
Context {C : Type} `{K8sClientInterface C}.
Variable r : StatusReporter.

Lemma checkContainerStatus_calls (c : Recorded C) :
  calls (snd (checkContainerStatus r c))
  = calls c ++ [CallGetAdapterContainerStatus (podName r)
                  (adapterContainerName r)].
Proof.
  rewrite checkContainerStatus_unfold. cbn [snd].
  now rewrite Recorded_GetAdapterContainerStatus.
Qed.

Lemma monitor_loop_calls (turns : list (Turn unit)) :
  forall c : Recorded C,
  exists k,
    calls (snd (monitor_loop r turns c))
    = calls c ++ repeat (CallGetAdapterContainerStatus (podName r)
                           (adapterContainerName r)) k
    /\ k <= length turns.
Proof.
  induction turns as [|[u|] turns IH]; intros c; cbn [monitor_loop].
  - exists 0. cbn. split; [now rewrite app_nil_r | lia].
  - pose proof (checkContainerStatus_calls c) as Hc.
    destruct (checkContainerStatus r c) as [[t|] c1]; cbn [snd] in *.
    + exists 1. split; [exact Hc | cbn; lia].
    + destruct (IH c1) as (k & Hk & Hle). exists (S k).
      split; [|cbn; lia].
      rewrite Hk, Hc, <- app_assoc. reflexivity.
  - exists 0. cbn. split; [now rewrite app_nil_r | lia].
Qed.

(** X16: the container watcher.  Its check reports termination by the
    test the timeout path uses: no query error, a status, and a
    terminated state in it; a failed or empty query is not a
    termination.  The watcher only queries: it makes the immediate
    check, at most one more query per tick, and never calls
    [UpdateJobStatus]. *)
Theorem monitorContainerStatus_only_queries (turns : list (Turn unit))
        (c : Recorded C) :
  fst (checkContainerStatus r c)
  = observed_termination
      (fst (GetAdapterContainerStatus (client c) (podName r)
              (adapterContainerName r)))
  /\ exists k,
      calls (snd (monitorContainerStatus r turns c))
      = calls c ++ repeat (CallGetAdapterContainerStatus (podName r)
                             (adapterContainerName r)) k
      /\ 1 <= k <= S (length turns).
Proof.
  split.
  - rewrite checkContainerStatus_unfold. cbn [fst].
    now rewrite Recorded_GetAdapterContainerStatus.
  - unfold monitorContainerStatus.
    pose proof (checkContainerStatus_calls c) as Hc.
    destruct (checkContainerStatus r c) as [[t|] c1]; cbn [snd] in *.
    + exists 1. split; [exact Hc | lia].
    + destruct (monitor_loop_calls turns c1) as (k & Hk & Hle).
      exists (S k). split; [|lia].
      rewrite Hk, Hc, <- app_assoc. reflexivity.
Qed.

End Monitor.

(* ================================================================== *)
(** ** The configuration                                               *)
(* ================================================================== *)






Section ConfigProofs.
Variable host : config.Host.


Lemma getRequiredEnv_inr (key value : gostring) :
  config.getRequiredEnv host key = inr value ->
  value = TrimSpace (config.Getenv host key) /\ value <> [].
Proof.
  unfold config.getRequiredEnv. cbv zeta.
  destruct (eqb (TrimSpace (config.Getenv host key)) []) eqn:E;
    [discriminate|].
  intros [= <-]. split; [reflexivity | now apply eqb_neq].
Qed.

Lemma getEnvOrDefault_nonempty (key dflt : gostring) :
  dflt <> [] -> config.getEnvOrDefault host key dflt <> [].
Proof.
  intros Hd. unfold config.getEnvOrDefault. cbv zeta.
  destruct (eqb (TrimSpace (config.Getenv host key)) []) eqn:E;
    [exact Hd | now apply eqb_neq].
Qed.

Lemma Validate_None (c : config.Config) :
  config.Validate host c = None ->
  (0 < config.PollIntervalSeconds c < config.MaxWaitTimeSeconds c)%Z
  /\ config.HasSuffix (config.ResultsPath c) (lit "/") = false
  /\ config.IsAbs (config.Clean host (config.ResultsPath c)) = true.
Proof.
  unfold config.Validate, config.validateResultsPath.
  destruct (Z.leb_spec (config.PollIntervalSeconds c) 0); [discriminate|].
  destruct (Z.leb_spec (config.MaxWaitTimeSeconds c) 0); [discriminate|].
  destruct (Z.geb_spec (config.PollIntervalSeconds c)
                       (config.MaxWaitTimeSeconds c)); [discriminate|].
  destruct (config.HasSuffix _ _); [discriminate|].
  destruct (config.IsAbs _); [|discriminate].
  intros _. repeat split; lia.
Qed.

(** X18: a configuration [Load] returns is usable by the reporter: the
    job name, namespace and pod name are the trimmed variables and not
    empty, the poll interval is positive and strictly below the
    maximum wait time, the results path does not end in a slash and is
    absolute once cleaned, and the condition type, log level and
    results path are not empty. *)
Theorem Load_returns_valid (c : config.Config) :
  config.Load host = inr c ->
  config.JobName c = TrimSpace (config.Getenv host config.EnvJobName)
  /\ config.JobNamespace c
     = TrimSpace (config.Getenv host config.EnvJobNamespace)
  /\ config.PodName c = TrimSpace (config.Getenv host config.EnvPodName)
  /\ config.JobName c <> [] /\ config.JobNamespace c <> []
  /\ config.PodName c <> []
  /\ (0 < config.PollIntervalSeconds c < config.MaxWaitTimeSeconds c)%Z
  /\ config.HasSuffix (config.ResultsPath c) (lit "/") = false
  /\ config.IsAbs (config.Clean host (config.ResultsPath c)) = true
  /\ config.ResultsPath c <> [] /\ config.ConditionType c <> []
  /\ config.LogLevel c <> [].
Proof.
  unfold config.Load.
  destruct (config.getRequiredEnv host config.EnvJobName)
    as [e|jobName] eqn:E1; [discriminate|].
  destruct (config.getRequiredEnv host config.EnvJobNamespace)
    as [e|jobNamespace] eqn:E2; [discriminate|].
  destruct (config.getRequiredEnv host config.EnvPodName)
    as [e|podName] eqn:E3; [discriminate|].
  cbv zeta.
  destruct (config.getEnvIntOrDefault host config.EnvPollIntervalSeconds _)
    as [e|poll]; [discriminate|].
  destruct (config.getEnvIntOrDefault host config.EnvMaxWaitTimeSeconds _)
    as [e|maxWait]; [discriminate|].
  destruct (config.Validate host _) as [e|] eqn:Ev; [discriminate|].
  intros [= <-].
  apply Validate_None in Ev.
  cbn [config.JobName config.JobNamespace config.PodName
       config.PollIntervalSeconds config.MaxWaitTimeSeconds
       config.ResultsPath config.ConditionType config.LogLevel] in *.
  destruct (getRequiredEnv_inr _ _ E1) as [H1 H1'].
  destruct (getRequiredEnv_inr _ _ E2) as [H2 H2'].
  destruct (getRequiredEnv_inr _ _ E3) as [H3 H3'].
  destruct Ev as (Hp & Hs & Ha).
  repeat split; try assumption; try lia;
    apply getEnvOrDefault_nonempty; discriminate.
Qed.

(** X19: the required variables are checked in the order JOB_NAME,
    JOB_NAMESPACE, POD_NAME, and the first that is unset, empty or
    only white space is the error, with the message required; nothing
    else is looked at before. *)
Theorem Load_required_in_order :
  let blank key := TrimSpace (config.Getenv host key) = [] in
  let required key :=
    inl {| config.Field := key; config.Message := lit "required" |} in
  (forall key, whitespace_only (config.Getenv host key) -> blank key)
  /\ (blank config.EnvJobName ->
      config.Load host = required config.EnvJobName)
  /\ (~ blank config.EnvJobName -> blank config.EnvJobNamespace ->
      config.Load host = required config.EnvJobNamespace)
  /\ (~ blank config.EnvJobName -> ~ blank config.EnvJobNamespace ->
      blank config.EnvPodName ->
      config.Load host = required config.EnvPodName)
  /\ config.Error {| config.Field := config.EnvJobName;
                     config.Message := lit "required" |}
     = lit "JOB_NAME: required".
Proof.
  cbv zeta.
  assert (Hreq : forall key,
             config.getRequiredEnv host key
             = if eqb (TrimSpace (config.Getenv host key)) []
               then inl {| config.Field := key;
                           config.Message := lit "required" |}
               else inr (TrimSpace (config.Getenv host key)))
    by reflexivity.
  split; [intros key Hw; now apply TrimSpace_whitespace|].
  unfold config.Load. rewrite !Hreq.
  split; [intros ->; reflexivity|]. split; [|split].
  - intros H1 ->. apply eqb_neq in H1. rewrite H1. reflexivity.
  - intros H1 H2 ->. apply eqb_neq in H1. apply eqb_neq in H2.
    rewrite H1, H2. reflexivity.
  - reflexivity.
Qed.

End ConfigProofs.

Lemma wrap64_small (z : Z) :
  (config.minInt <= z <= config.maxInt)%Z -> config.wrap64 z = z.
Proof.
  unfold config.minInt, config.maxInt, config.wrap64. intros Hz.
  rewrite Z.mod_small; lia.
Qed.

(** X20: for a configuration that passed [Validate] with a maximum
    wait time of at most 9223372036 seconds, the two durations do not
    overflow the 64-bit nanosecond count: they are the seconds times
    10^9, positive, and the poll interval is strictly below the maximum
    wait time, as the reporter assumes. *)
Theorem durations_ordered (host : config.Host) (c : config.Config) :
  config.Validate host c = None ->
  (config.MaxWaitTimeSeconds c <= 9223372036)%Z ->
  config.GetPollInterval c = (config.PollIntervalSeconds c * 1000000000)%Z
  /\ config.GetMaxWaitTime c = (config.MaxWaitTimeSeconds c * 1000000000)%Z
  /\ (0 < config.GetPollInterval c < config.GetMaxWaitTime c)%Z.
Proof.
  intros Hv Hmax. apply Validate_None in Hv. destruct Hv as (Hp & _).
  unfold config.GetPollInterval, config.GetMaxWaitTime, config.Second.
  rewrite !wrap64_small by (unfold config.minInt, config.maxInt; lia).
  repeat split; lia.
Qed.

Lemma durations_ordered_witness :
  (0 < config.GetPollInterval scenario.the_config
   < config.GetMaxWaitTime scenario.the_config)%Z.
Proof.
  refine (proj2 (proj2 (durations_ordered scenario.the_env
                          scenario.the_config _ _))).
  - vm_compute. reflexivity.
  - vm_compute. discriminate.
Defined.

(** Beyond that bound the multiplication wraps: the largest [int]
    passes [Validate] and gives a negative maximum wait time. *)
Lemma GetMaxWaitTime_overflow :
  config.Validate scenario.the_env
    {| config.JobName := lit "j"; config.JobNamespace := lit "n";
       config.PodName := lit "p";
       config.ResultsPath := config.DefaultResultsPath;
       config.PollIntervalSeconds := 2;
       config.MaxWaitTimeSeconds := config.maxInt;
       config.ConditionType := lit "Available"; config.LogLevel := lit "info";
       config.AdapterContainerName := [] |} = None
  /\ config.GetMaxWaitTime
       {| config.JobName := lit "j"; config.JobNamespace := lit "n";
          config.PodName := lit "p";
          config.ResultsPath := config.DefaultResultsPath;
          config.PollIntervalSeconds := 2;
          config.MaxWaitTimeSeconds := config.maxInt;
          config.ConditionType := lit "Available"; config.LogLevel := lit "info";
          config.AdapterContainerName := [] |} = (-1000000000)%Z.
Proof. split; vm_compute; reflexivity. Qed.

Lemma Load_returns_valid_witness :
  config.JobName scenario.the_config
  = TrimSpace (config.Getenv scenario.the_env config.EnvJobName)
  /\ (0 < config.PollIntervalSeconds scenario.the_config
      < config.MaxWaitTimeSeconds scenario.the_config)%Z.
Proof.
  destruct (Load_returns_valid scenario.the_env scenario.the_config)
    as (H1 & _ & _ & _ & _ & _ & H7 & _).
  - vm_compute. reflexivity.
  - split; [exact H1 | exact H7].
Defined.
